(** * Customer Management API: controllers and startup sequence

    A shallow embedding of the backend of the devops-lab repository:

    - [app/controllers/customer.controller.js]: the six request handlers,
      written against the ORM model object [Customer];
    - the model definition ([sequelize.define('customer', ...)]): the
      schema of the [customers] table;
    - [server.js]: the Express application, the [connectDB] retry loop and
      the timer that registers the customer routes.

    The ORM (Sequelize) and the database engine are external to the
    repository.  The handlers are therefore written over an interface
    ([Model]), and the facts that only depend on how a handler turns the
    outcome of an ORM call into a response are proved for every
    implementation of that interface.  The facts that speak about the
    contents of the table are proved for [Pg.Customer], a relational model
    of the table that follows the schema of the model definition. *)

From Stdlib Require Import ZArith String Ascii List Lia DecimalString DecimalZ.
From stdpp Require Import base option list gmap strings.

Local Open Scope string_scope.
Local Open Scope Z_scope.

(** ** JavaScript values as they reach the handlers *)

Module Js.

(** A field of a body parsed by [express.json()].  [Undefined] is what a
    property access yields when the key is absent.  [Num] carries the
    integers up to [2^53 - 1] in absolute value, the numbers that JSON
    denotes exactly and that [String] prints digit by digit; [Object]
    stands for any array or object value, whose contents no handler
    inspects.  A string is the sequence of the octets of its UTF-8
    encoding. *)
Inductive value : Type :=
| Undefined
| Null
| Bool (b : bool)
| Num (n : Z)
| Str (s : string)
| Object.

Global Instance value_eq_dec : EqDecision value.
Proof. solve_decision. Defined.

(** [!v] is [negb (truthy v)]. *)
Definition truthy (v : value) : bool :=
  match v with
  | Undefined | Null => false
  | Bool b => b
  | Num n => negb (n =? 0)
  | Str s => negb (String.eqb s "")
  | Object => true
  end.

(** Property access [o.k] on a parsed object. *)
Definition get (o : gmap string value) (k : string) : value :=
  default Undefined (o !! k).

(** [s || fallback] on strings: the empty string is falsy. *)
Definition or_else (s fallback : string) : string :=
  if String.eqb s "" then fallback else s.

(** [String(n)]. *)
Definition show (n : Z) : string := NilZero.string_of_int (Z.to_int n).

(** A thrown [Error]; the handlers only read its [message]. *)
Record error : Type := Error { message : string }.

(** [errors.join(',\n')] *)
Fixpoint join (l : list string) : string :=
  match l with
  | [] => ""
  | [s] => s
  | s :: l' => s +:+ "," +:+ String (ascii_of_nat 10) "" +:+ join l'
  end.

(** *** [decodeURIComponent]

    An escape [%XX] stands for one octet; a run of escapes must be the
    UTF-8 encoding of a code point.  Any other character stands for
    itself, that is for the octets of its own encoding. *)

Definition hex (c : ascii) : option N :=
  let n := N_of_ascii c in
  if (48 <=? n)%N && (n <=? 57)%N then Some (n - 48)%N
  else if (65 <=? n)%N && (n <=? 70)%N then Some (n - 55)%N
  else if (97 <=? n)%N && (n <=? 102)%N then Some (n - 87)%N
  else None.

Inductive piece : Type :=
| Plain (c : ascii)
| Escape (octet : N).

Fixpoint pieces (s : string) : option (list piece) :=
  match s with
  | EmptyString => Some []
  | String c r =>
      if Ascii.eqb c "%" then
        match r with
        | String a (String b r') =>
            match hex a, hex b with
            | Some x, Some y => cons (Escape (16 * x + y)) <$> pieces r'
            | _, _ => None
            end
        | _ => None
        end
      else cons (Plain c) <$> pieces r
  end.

Definition within (lo hi n : N) : bool := ((lo <=? n) && (n <=? hi))%N.

(** The octets after the first one of an encoded code point. *)
Definition trail (n : N) : bool := within 128 191 n.

Fixpoint octets (l : list piece) : option (list N) :=
  match l with
  | [] => Some []
  | Plain c :: r =>
      let n := N_of_ascii c in
      app (if (n <? 128)%N then [n] else [192 + n / 64; 128 + n mod 64]%N)
        <$> octets r
  | Escape b :: r =>
      if (b <? 128)%N then cons b <$> octets r
      else if within 194 223 b then
        match r with
        | Escape b1 :: r1 =>
            if trail b1 then app [b; b1] <$> octets r1 else None
        | _ => None
        end
      else if within 224 239 b then
        match r with
        | Escape b1 :: Escape b2 :: r2 =>
            if within (if (b =? 224)%N then 160 else 128)
                      (if (b =? 237)%N then 159 else 191) b1 && trail b2
            then app [b; b1; b2] <$> octets r2 else None
        | _ => None
        end
      else if within 240 244 b then
        match r with
        | Escape b1 :: Escape b2 :: Escape b3 :: r3 =>
            if within (if (b =? 240)%N then 144 else 128)
                      (if (b =? 244)%N then 143 else 191) b1
               && trail b2 && trail b3
            then app [b; b1; b2; b3] <$> octets r3 else None
        | _ => None
        end
      else None
  end.

(** [None]: a [URIError]. *)
Definition decodeURIComponent (s : string) : option string :=
  l ← pieces s;
  o ← octets l;
  Some (string_of_list_ascii (List.map ascii_of_N o)).

(** The letters of a string in lower case, as a comparison that ignores
    case (the flag [i] of a regular expression) sees them. *)
Definition lower (s : string) : string :=
  string_of_list_ascii
    (List.map (fun c => let n := N_of_ascii c in
                        if within 65 90 n then ascii_of_N (n + 32) else c)
              (list_ascii_of_string s)).

End Js.

(** A promise that has settled: the awaited value, or the rejection that
    [await] rethrows into the enclosing [catch]. *)
Inductive result (A : Type) : Type :=
| Ok (a : A)
| Throw (e : Js.error).
Arguments Ok {A} a.
Arguments Throw {A} e.

Global Instance result_ret : MRet result := fun A a => Ok a.

Global Instance result_bind : MBind result := fun A B k r =>
  match r with
  | Ok a => k a
  | Throw e => Throw e
  end.

Global Instance result_fmap : FMap result := fun A B f r =>
  match r with
  | Ok a => Ok (f a)
  | Throw e => Throw e
  end.

(** ** The customer record (model definition, [timestamps: true]) *)

Record customer : Type := Customer_ {
  id : Z;
  firstname : string;
  lastname : string;
  age : option Z;
  address : option string;
  createdAt : Z;
  updatedAt : Z
}.

Global Instance customer_eq_dec : EqDecision customer.
Proof. solve_decision. Defined.

(** ** The ORM interface used by the controller

    [const Customer = db.customers].  The state [W] is whatever lies
    outside the handler and is within reach of the ORM: the tables, the
    sequences, the console.  A call returns what its promise settles to
    and the state that it leaves, which a call that throws may have
    changed as well. *)

Inductive where_ : Type :=
| WhereAll                  (* where: {}          *)
| WhereId (id : string).    (* where: { id: id }  *)

Record Model (W : Type) : Type := {
  m_create   : gmap string Js.value -> W -> result customer * W;
  m_findAll  : W -> result (list customer) * W;
  m_findByPk : string -> W -> result (option customer) * W;
  m_update   : gmap string Js.value -> where_ -> W -> result Z * W;
  m_destroy  : where_ -> W -> result Z * W
}.
Arguments m_create {W} _ _ _.
Arguments m_findAll {W} _ _.
Arguments m_findByPk {W} _ _ _.
Arguments m_update {W} _ _ _ _.
Arguments m_destroy {W} _ _ _.

(** ** Express requests and responses *)

Record request : Type := Request {
  params_id : string;              (* req.params.id *)
  body : gmap string Js.value      (* req.body      *)
}.

Inductive payload : Type :=
| Message (message : string)       (* { message: ... }            *)
| One (c : customer)               (* a model instance            *)
| Many (cs : list customer)        (* an array of model instances *)
| Health (message status : string) (* { message: ..., status: ... } *)
| NoRoute                          (* Express's own page: no layer answered *).

Record response : Type := Response {
  status : Z;
  sent : payload
}.

(** [res.send(x)] without [res.status] answers 200. *)
Definition send (p : payload) : response := Response 200 p.

(** ** The controller *)

Module controller.
Section handlers.

Context {W : Type} (Customer : Model W).

(** The object literal [{ firstname, lastname, age, address }]. *)
Definition picked (firstname lastname age address : Js.value)
  : gmap string Js.value :=
  <["firstname" := firstname]> (<["lastname" := lastname]>
    (<["age" := age]> (<["address" := address]> ∅))).

Definition create (req : request) (w : W) : response * W :=
  let firstname := Js.get (body req) "firstname" in
  let lastname := Js.get (body req) "lastname" in
  let age := Js.get (body req) "age" in
  let address := Js.get (body req) "address" in
  if negb (Js.truthy firstname) || negb (Js.truthy lastname) then
    (Response 400 (Message "Firstname and Lastname are required!"), w)
  else
    match m_create Customer (picked firstname lastname age address) w with
    | (Ok customer, w') => (Response 201 (One customer), w')
    | (Throw error, w') =>
        (Response 500
           (Message (Js.or_else (Js.message error) "Error creating customer")),
         w')
    end.

Definition findAll (req : request) (w : W) : response * W :=
  match m_findAll Customer w with
  | (Ok customers, w') => (send (Many customers), w')
  | (Throw error, w') =>
      (Response 500
         (Message (Js.or_else (Js.message error) "Error retrieving customers")),
       w')
  end.

Definition findOne (req : request) (w : W) : response * W :=
  let id := params_id req in
  match m_findByPk Customer id w with
  | (Ok None, w') =>
      (Response 404 (Message ("Customer with id=" +:+ id +:+ " not found")), w')
  | (Ok (Some customer), w') => (send (One customer), w')
  | (Throw error, w') =>
      (Response 500
         (Message ("Error retrieving customer with id=" +:+ params_id req)), w')
  end.

Definition update (req : request) (w : W) : response * W :=
  let id := params_id req in
  match m_update Customer (body req) (WhereId id) w with
  | (Ok updated, w') =>
      if updated =? 1 then
        (send (Message "Customer updated successfully"), w')
      else
        (Response 404 (Message ("Cannot update customer with id=" +:+ id)), w')
  | (Throw error, w') =>
      (Response 500
         (Message ("Error updating customer with id=" +:+ params_id req)), w')
  end.

Definition delete (req : request) (w : W) : response * W :=
  let id := params_id req in
  match m_destroy Customer (WhereId id) w with
  | (Ok deleted, w') =>
      if deleted =? 1 then
        (send (Message "Customer deleted successfully"), w')
      else
        (Response 404 (Message ("Cannot delete customer with id=" +:+ id)), w')
  | (Throw error, w') =>
      (Response 500
         (Message ("Error deleting customer with id=" +:+ params_id req)), w')
  end.

Definition deleteAll (req : request) (w : W) : response * W :=
  match m_destroy Customer WhereAll w with
  | (Ok deleted, w') =>
      (send (Message (Js.show deleted +:+ " customers deleted successfully")), w')
  | (Throw error, w') =>
      (Response 500
         (Message (Js.or_else (Js.message error) "Error deleting all customers")),
       w')
  end.

End handlers.
End controller.

(** ** A relational model of the [customers] table

    What the ORM and the database do with the table declared by the model
    definition: [id] INTEGER, primary key, auto-increment; [firstname] and
    [lastname] STRING with [allowNull: false]; [age] INTEGER; [address]
    STRING; [createdAt] and [updatedAt] maintained by the ORM
    ([timestamps: true]).  The ORM validates the values it is given
    before it issues a statement; the database reads the parameters of a
    statement, then executes it, and a statement that fails leaves the
    table as it was. *)

Module Pg.

Record world : Type := World {
  rows : list customer;      (* the table, in insertion order            *)
  serial : Z;                (* last value drawn from the id sequence    *)
  clock : Z;                 (* current time in milliseconds             *)
  outage : option Js.error   (* [Some e]: unreachable, statements reject *)
}.

Definition fail {A} (msg : string) : result A := Throw (Js.Error msg).

Definition connected (w : world) : result unit :=
  match outage w with
  | None => Ok ()
  | Some e => Throw e
  end.

(** The double quote of the messages of the database. *)
Definition quoted (s : string) : string :=
  String (ascii_of_nat 34) s +:+ String (ascii_of_nat 34) "".

(** *** Validation by the ORM

    What the instance validator finds wrong with the value of one
    attribute: [null] or [undefined] where the model definition says
    [allowNull: false], an array or an object where it says STRING. *)

Definition violations (column : string) (allowNull text : bool) (v : Js.value)
  : list string :=
  ((if negb allowNull
       && bool_decide (v = Js.Null \/ v = Js.Undefined)
    then ["notNull Violation: customer." +:+ column +:+ " cannot be null"]
    else [])
   ++ (if text && bool_decide (v = Js.Object)
       then ["string violation: " +:+ column
             +:+ " cannot be an array or an object"]
       else []))%list.

(** The attributes that are validated, in the order of the model
    definition, with [allowNull] and whether the type is STRING.  The id
    and the timestamps are generated and not validated. *)
Definition validated : list (string * (bool * bool)) :=
  [("firstname", (false, true)); ("lastname", (false, true));
   ("age", (true, false)); ("address", (true, true))].

(** All violations are reported in one error. *)
Definition validate (skip : string -> bool) (values : gmap string Js.value)
  : result unit :=
  match flat_map (fun a => if skip a.1 then []
                           else violations a.1 a.2.1 a.2.2 (Js.get values a.1))
                 validated with
  | [] => Ok ()
  | errors => fail (Js.join errors)
  end.

(** *** Column types *)

(** The characters of a text: the octets that do not continue an encoded
    code point. *)
Fixpoint characters (s : string) : Z :=
  match s with
  | EmptyString => 0
  | String c s' =>
      (if Js.within 128 191 (N_of_ascii c) then 0 else 1) + characters s'
  end.

(** Whether a zero octet occurs, which ends a text and which no text can
    hold. *)
Fixpoint terminated (s : string) : bool :=
  match s with
  | EmptyString => false
  | String c s' => (N_of_ascii c =? 0)%N || terminated s'
  end.

(** What a [character varying(255)] column takes: at most 255 characters,
    none of them the zero octet. *)
Definition fits (s : string) : bool :=
  negb (terminated s) && (characters s <=? 255).

Definition varchar (s : string) : result string :=
  if terminated s then
    fail ("invalid byte sequence for encoding " +:+ quoted "UTF8" +:+ ": 0x00")
  else if characters s <=? 255 then Ok s
  else fail "value too long for type character varying(255)".

Definition int4 (n : Z) : result Z :=
  if (-2147483648 <=? n) && (n <=? 2147483647) then Ok n
  else fail ("value " +:+ quoted (Js.show n)
             +:+ " is out of range for type integer").

(** The input syntax of the type integer: white space, an optional sign,
    decimal digits, white space. *)
Definition space (c : ascii) : bool :=
  let n := N_of_ascii c in (n =? 32)%N || Js.within 9 13 n.

Definition digit (c : ascii) : bool := Js.within 48 57 (N_of_ascii c).

Fixpoint ltrim (s : string) : string :=
  match s with
  | EmptyString => s
  | String c s' => if space c then ltrim s' else s
  end.

Fixpoint blank (s : string) : bool :=
  match s with
  | EmptyString => true
  | String c s' => space c && blank s'
  end.

(** The digits that a string begins with, and what follows them. *)
Fixpoint digits (s : string) : string * string :=
  match s with
  | EmptyString => (s, s)
  | String c s' =>
      if digit c then (String c (digits s').1, (digits s').2)
      else (EmptyString, s)
  end.

Definition unsigned (s : string) : option Z :=
  if blank (digits s).2
  then Z.of_uint <$> NilZero.uint_of_string (digits s).1
  else None.

Definition integer (s : string) : option Z :=
  match ltrim s with
  | String c r =>
      if Ascii.eqb c "+" then unsigned r
      else if Ascii.eqb c "-" then Z.opp <$> unsigned r
      else unsigned (String c r)
  | EmptyString => None
  end.

Definition numeral (s : string) : result Z :=
  match integer s with
  | Some n =>
      if (-2147483648 <=? n) && (n <=? 2147483647) then Ok n
      else fail ("value " +:+ quoted s +:+ " is out of range for type integer")
  | None => fail ("invalid input syntax for type integer: " +:+ quoted s)
  end.

Definition STRING (column : string) (v : Js.value) : result (option string) :=
  match v with
  | Js.Undefined | Js.Null => Ok None
  | Js.Str s => Some <$> varchar s
  | Js.Num n => Some <$> varchar (Js.show n)
  | Js.Bool b => Some <$> varchar (if b then "true" else "false")
  | Js.Object =>
      fail ("string violation: " +:+ column +:+ " cannot be an array or an object")
  end.

Definition INTEGER (v : Js.value) : result (option Z) :=
  match v with
  | Js.Undefined | Js.Null => Ok None
  | Js.Num n => Some <$> int4 n
  | Js.Str s => Some <$> numeral s
  | Js.Bool b =>
      fail ("invalid input syntax for type integer: "
            +:+ quoted (if b then "true" else "false"))
  | Js.Object => fail "invalid input syntax for type integer"
  end.

(** The NOT NULL constraint of a column. *)
Definition notNull {A} (column : string) (x : option A) : result A :=
  match x with
  | Some a => Ok a
  | None =>
      fail ("null value in column " +:+ quoted column +:+ " of relation "
            +:+ quoted "customers" +:+ " violates not-null constraint")
  end.

(** The primary key constraint. *)
Definition taken (i : Z) (l : list customer) : bool :=
  existsb (fun c => id c =? i) l.

Fixpoint distinct (l : list customer) : bool :=
  match l with
  | [] => true
  | c :: l' => negb (taken (id c) l') && distinct l'
  end.

(** The ORM's error for a violated unique constraint. *)
Definition duplicate_key {A} : result A := fail "Validation error".

(** [WHERE id = '<id>'], or no condition. *)
Definition selects (wh : where_) : result (customer -> bool) :=
  match wh with
  | WhereAll => Ok (fun _ => true)
  | WhereId s => k ← numeral s; Ok (fun c => id c =? k)
  end.

(** A statement that fails is rolled back. *)
Definition statement {A} (r : result (A * world)) (w : world)
  : result A * world :=
  match r with
  | Ok (a, w') => (Ok a, w')
  | Throw e => (Throw e, w)
  end.

Section table.

(** How [Date] of JavaScript reads a date given as a string, in
    milliseconds. *)
Variable Date_parse : string -> option Z.

(** [new Date(v)] for a truthy value, sent as a timestamp. *)
Definition DATE (v : Js.value) : result (option Z) :=
  let invalid := fail "invalid input syntax for type timestamp with time zone" in
  match v with
  | Js.Undefined | Js.Null => Ok None
  | Js.Num n =>
      if (-8640000000000000 <=? n) && (n <=? 8640000000000000)
      then Ok (Some n) else invalid
  | Js.Str s =>
      match (if String.eqb s "" then None else Date_parse s) with
      | Some t => Ok (Some t)
      | None => invalid
      end
  | Js.Bool true => Ok (Some 1)
  | Js.Bool false | Js.Object => invalid
  end.

(** What the INSERT is given for the columns, read by the database. *)
Definition inserted (values : gmap string Js.value) (w : world)
  : result (string * string * option Z * option string * option Z * option Z) :=
  _ ← validate (fun _ => false) values;
  _ ← connected w;
  fn ← STRING "firstname" (Js.get values "firstname") ≫= notNull "firstname";
  ln ← STRING "lastname" (Js.get values "lastname") ≫= notNull "lastname";
  ag ← INTEGER (Js.get values "age");
  ad ← STRING "address" (Js.get values "address");
  given ← INTEGER (Js.get values "id");
  cr ← DATE (Js.get values "createdAt");
  Ok (fn, ln, ag, ad, given, cr).

(** [Customer.create(values)]: an INSERT that returns the stored row.
    The id comes from the sequence unless [values] carries one.  A value
    drawn from the sequence is not given back when the primary key then
    refuses the row. *)
Definition create (values : gmap string Js.value) (w : world)
  : result customer * world :=
  match inserted values w with
  | Throw e => (Throw e, w)
  | Ok (fn, ln, ag, ad, given, cr) =>
      let row i := {| id := i; firstname := fn; lastname := ln; age := ag;
                      address := ad; createdAt := default (clock w) cr;
                      updatedAt := clock w |} in
      match given with
      | Some i =>
          if taken i (rows w) then (duplicate_key, w)
          else (Ok (row i),
                World (rows w ++ [row i]) (serial w) (clock w) (outage w))
      | None =>
          match int4 (serial w + 1) with
          | Throw _ =>
              (fail "nextval: reached maximum value of sequence", w)
          | Ok i =>
              if taken i (rows w)
              then (duplicate_key, World (rows w) i (clock w) (outage w))
              else (Ok (row i),
                    World (rows w ++ [row i]) i (clock w) (outage w))
          end
      end
  end.

Definition findAll (w : world) : result (list customer) * world :=
  (_ ← connected w; Ok (rows w), w).

Definition findByPk (pk : string) (w : world)
  : result (option customer) * world :=
  (_ ← connected w;
   k ← numeral pk;
   Ok (List.find (fun c => id c =? k) (rows w)), w).

(** The attributes of the model. *)
Definition attributes : list string :=
  ["id"; "firstname"; "lastname"; "age"; "address"; "createdAt"; "updatedAt"].

(** The attributes that [values] carries.  A key that is not an attribute
    of the model is dropped, and so is one whose value is [undefined]. *)
Definition carried (values : gmap string Js.value) : list string :=
  List.filter (fun k => negb (bool_decide (Js.get values k = Js.Undefined)))
              attributes.

(** The SET clause of an UPDATE, [updatedAt] apart.  [None] leaves the
    column as it is; [nulls] says that NULL is given for the id or for
    [createdAt], which no row can take. *)
Record changes : Type := Changes {
  set_id : option Z;
  set_firstname : option string;
  set_lastname : option string;
  set_age : option (option Z);
  set_address : option (option string);
  set_createdAt : option Z;
  nulls : bool
}.

Definition nullable {A} (ty : Js.value -> result (option A)) (v : Js.value)
  : result (option (option A)) :=
  match v with
  | Js.Undefined => Ok None
  | _ => x ← ty v; Ok (Some x)
  end.

Definition required {A} (column : string) (ty : Js.value -> result (option A))
    (v : Js.value) : result (option A) :=
  match v with
  | Js.Undefined => Ok None
  | _ => a ← ty v ≫= notNull column; Ok (Some a)
  end.

Definition changes_of (values : gmap string Js.value) : result changes :=
  i ← nullable INTEGER (Js.get values "id");
  fn ← required "firstname" (STRING "firstname") (Js.get values "firstname");
  ln ← required "lastname" (STRING "lastname") (Js.get values "lastname");
  ag ← nullable INTEGER (Js.get values "age");
  ad ← nullable (STRING "address") (Js.get values "address");
  cr ← nullable DATE (Js.get values "createdAt");
  Ok (Changes (mjoin i) fn ln ag ad (mjoin cr)
        (bool_decide (i = Some None \/ cr = Some None))).

Definition amend (ch : changes) (now : Z) (c : customer) : customer :=
  {| id := default (id c) (set_id ch);
     firstname := default (firstname c) (set_firstname ch);
     lastname := default (lastname c) (set_lastname ch);
     age := default (age c) (set_age ch);
     address := default (address c) (set_address ch);
     createdAt := default (createdAt c) (set_createdAt ch);
     updatedAt := now |}.

(** The UPDATE statement. *)
Definition updated (values : gmap string Js.value) (wh : where_) (w : world)
  : result (Z * world) :=
  _ ← connected w;
  ch ← changes_of values;
  selects wh ≫= fun hit : customer -> bool =>
  let rows' :=
    List.map (fun c : customer => if hit c then amend ch (clock w) c else c)
             (rows w) in
  if nulls ch && existsb hit (rows w) then notNull "id" None
  else if distinct rows' then
    Ok (Z.of_nat (length (List.filter hit (rows w))),
        World rows' (serial w) (clock w) (outage w))
  else duplicate_key.

(** [Customer.update(values, { where })]: the number of rows matched.
    The values that are given are validated first; when they carry no
    attribute but [updatedAt], no statement is issued and the number
    is 0. *)
Definition update (values : gmap string Js.value) (wh : where_) (w : world)
  : result Z * world :=
  match validate (fun column =>
                    bool_decide (Js.get values column = Js.Undefined))
                 values with
  | Throw e => (Throw e, w)
  | Ok _ =>
      if forallb (String.eqb "updatedAt") (carried values) then (Ok 0, w)
      else statement (updated values wh w) w
  end.

(** [Customer.destroy({ where })]: the number of rows deleted. *)
Definition destroyed (wh : where_) (w : world) : result (Z * world) :=
  _ ← connected w;
  selects wh ≫= fun hit : customer -> bool =>
  Ok (Z.of_nat (length (List.filter hit (rows w))),
      World (List.filter (fun c => negb (hit c)) (rows w))
            (serial w) (clock w) (outage w)).

Definition destroy (wh : where_) (w : world) : result Z * world :=
  statement (destroyed wh w) w.

(** Modelled from the spec: [db.customers], the model object that
    [app/models/index.js] (not among the sources) builds by handing the
    model definition to the ORM; the persistence schema and the
    data-access layer of sections 2 and 3 of the specification. *)
Definition Customer : Model world := {|
  m_create := create;
  m_findAll := findAll;
  m_findByPk := findByPk;
  m_update := update;
  m_destroy := destroy
|}.

End table.

(** A fresh database: empty table, untouched sequence. *)
Definition empty (now : Z) : world := World [] 0 now None.

End Pg.

(** ** The six operations on the table, and the states they reach *)

Inductive operation : Type :=
| Create | FindAll | FindOne | Update | Delete | DeleteAll.

Definition handle {W} (Customer : Model W) (o : operation)
  : request -> W -> response * W :=
  match o with
  | Create => controller.create Customer
  | FindAll => controller.findAll Customer
  | FindOne => controller.findOne Customer
  | Update => controller.update Customer
  | Delete => controller.delete Customer
  | DeleteAll => controller.deleteAll Customer
  end.

(** The states of the database that a deployment can be in: a fresh table,
    any request served by a handler, time passing, the database becoming
    unreachable or reachable again. *)
Inductive reachable (Date_parse : string -> option Z) : Pg.world -> Prop :=
| reach_empty now :
    reachable Date_parse (Pg.empty now)
| reach_handle o req w :
    reachable Date_parse w ->
    reachable Date_parse (handle (Pg.Customer Date_parse) o req w).2
| reach_environment w now e :
    reachable Date_parse w ->
    reachable Date_parse (Pg.World (Pg.rows w) (Pg.serial w) now e).

(** Bodies: a key that is absent or holds the empty string, and a key that
    holds a non-empty string. *)
Definition missing_or_empty (o : gmap string Js.value) (k : string) : Prop :=
  o !! k = None \/ o !! k = Some (Js.Str "").

Definition non_empty (o : gmap string Js.value) (k : string) : Prop :=
  exists s, o !! k = Some (Js.Str s) /\ s <> "".

(** The fields that [create] destructures from the body. *)
Definition create_fields : list string :=
  ["firstname"; "lastname"; "age"; "address"].

(** The stored names of a table are all non-empty. *)
Definition named (l : list customer) : Prop :=
  Forall (fun c => firstname c <> "" /\ lastname c <> "") l.

(** What a request gives for a STRING column and for the INTEGER column,
    when the database takes it: nothing or [null], a string of at most 255
    characters, an integer within the range of the type. *)
Definition text_of (v : Js.value) (x : option string) : Prop :=
  match v with
  | Js.Undefined | Js.Null => x = None
  | Js.Str s => x = Some s /\ Pg.fits s = true
  | _ => False
  end.

Definition integer_of (v : Js.value) (x : option Z) : Prop :=
  match v with
  | Js.Undefined | Js.Null => x = None
  | Js.Num n => x = Some n /\ -2147483648 <= n <= 2147483647
  | _ => False
  end.

(** A valid input of create: the names are non-empty strings, the age
    and the address are optional. *)
Definition valid_create (o : gmap string Js.value) (f l : string)
    (a : option Z) (d : option string) : Prop :=
  (Js.get o "firstname" = Js.Str f /\ f <> "" /\ Pg.fits f = true)
  /\ (Js.get o "lastname" = Js.Str l /\ l <> "" /\ Pg.fits l = true)
  /\ integer_of (Js.get o "age") a
  /\ text_of (Js.get o "address") d.

(** A field of a body of update that the database takes: a string for a
    name, an integer or [null] for the age, a string or [null] for the
    address. *)
Definition update_field (k : string) (v : Js.value) : bool :=
  if String.eqb k "firstname" || String.eqb k "lastname" then
    match v with Js.Str s => Pg.fits s | _ => false end
  else if String.eqb k "age" then
    match v with
    | Js.Null => true
    | Js.Num n => (-2147483648 <=? n) && (n <=? 2147483647)
    | _ => false
    end
  else if String.eqb k "address" then
    match v with Js.Null => true | Js.Str s => Pg.fits s | _ => false end
  else false.

(** A body that carries such fields and nothing else. *)
Definition update_body (o : gmap string Js.value) : bool :=
  forallb (fun kv : string * Js.value => update_field kv.1 kv.2)
          (map_to_list o).

(** ** [server.js]: the application, the retry loop, the event loop

    The runs considered are those in which no termination signal arrives:
    the script registers a SIGTERM handler last, and nothing below depends
    on it. *)

Module server.

Definition maxRetries : Z := 10.

(** What the database answers to one connection attempt: after how many
    milliseconds [authenticate()] settles and whether it rejects, and the
    same for [sync({ force: false })], which only runs once
    [authenticate()] has resolved. *)
Record attempt : Type := Attempt {
  auth_after : N;
  auth : option Js.error;
  sync_after : N;
  sync : option Js.error
}.

Record environment : Type := Environment {
  PORT : string;              (* process.env.PORT, empty when unset *)
  database : Z -> attempt     (* the answer to the n-th attempt     *)
}.

(** The layers of the Express application, in registration order. *)
Inductive layer : Type :=
| Cors | Json | HealthCheck | CustomerRoutes | ErrorHandler.

Global Instance layer_eq_dec : EqDecision layer.
Proof. solve_decision. Defined.

(** What the event loop has pending: timers and I/O completions. *)
Inductive task : Type :=
| ConnectDB                               (* setTimeout(connectDB, delay) *)
| Authenticated (rejected : option Js.error)
| Synced (rejected : option Js.error)
| RegisterRoutes.                         (* the 1000 ms timer            *)

Inductive line : Type :=
| Attempting (retries maxRetries : Z)
| DatabaseAuthenticated
| DatabaseSynced
| DatabaseError (message : string)
| Retrying (delay : Z)
| MaxRetriesReached
| RoutesRegistered
| Listening (port : string).

(** The text of each console line. *)
Definition render (l : line) : string :=
  match l with
  | Attempting r m =>
      "[" +:+ Js.show r +:+ "/" +:+ Js.show m +:+ "] Attempting database connection..."
  | DatabaseAuthenticated => "✓ Database authenticated"
  | DatabaseSynced => "✓ Database synced"
  | DatabaseError m => "✗ Database error: " +:+ m
  | Retrying d => "Retrying in " +:+ Js.show d +:+ "ms..."
  | MaxRetriesReached => "Max retries reached. Exiting."
  | RoutesRegistered => "✓ Routes registered"
  | Listening p => "✓ Server listening on port " +:+ p
  end.

Record process : Type := Process {
  now : Z;                       (* milliseconds since the script started *)
  dbConnected : bool;
  retries : Z;
  stack : list layer;
  listening : bool;
  timers : list (Z * task);      (* due time and task, oldest first       *)
  exited : option Z;             (* the code given to process.exit        *)
  console : list (Z * line)      (* what was printed, and when            *)
}.

Definition start : process := Process 0 false 0 [] false [] None [].

Definition log (l : line) (p : process) : process :=
  Process (now p) (dbConnected p) (retries p) (stack p) (listening p)
          (timers p) (exited p) (console p ++ [(now p, l)]).

Definition use (y : layer) (p : process) : process :=
  Process (now p) (dbConnected p) (retries p) (stack p ++ [y]) (listening p)
          (timers p) (exited p) (console p).

Definition schedule (due : Z) (t : task) (p : process) : process :=
  Process (now p) (dbConnected p) (retries p) (stack p) (listening p)
          (timers p ++ [(due, t)]) (exited p) (console p).

Definition setTimeout (t : task) (delay : Z) (p : process) : process :=
  schedule (now p + delay) t p.

(** A call to the database whose promise settles [after] milliseconds
    from now: its continuation [t] runs then. *)
Definition settles (t : task) (after : N) (p : process) : process :=
  schedule (now p + Z.of_N after) t p.

Definition exit (code : Z) (p : process) : process :=
  Process (now p) (dbConnected p) (retries p) (stack p) (listening p)
          (timers p) (Some code) (console p).

Definition incr_retries (p : process) : process :=
  Process (now p) (dbConnected p) (retries p + 1) (stack p) (listening p)
          (timers p) (exited p) (console p).

Definition set_dbConnected (p : process) : process :=
  Process (now p) true (retries p) (stack p) (listening p)
          (timers p) (exited p) (console p).

Definition listen (p : process) : process :=
  Process (now p) (dbConnected p) (retries p) (stack p) true
          (timers p) (exited p) (console p).

Section loop.

Variable env : environment.

Definition connectDB (p : process) : process :=
  let p := incr_retries p in
  let p := log (Attempting (retries p) maxRetries) p in
  let a := database env (retries p) in
  settles (Authenticated (auth a)) (auth_after a) p.

(** [.catch(err => ...)] *)
Definition on_error (err : Js.error) (p : process) : process :=
  let p := log (DatabaseError (Js.message err)) p in
  if retries p <? maxRetries then
    let delay := Z.min (5000 * retries p) 30000 in
    let p := log (Retrying delay) p in
    setTimeout ConnectDB delay p
  else
    let p := log MaxRetriesReached p in
    exit 1 p.

(** The first [.then]: log, then [return db.sequelize.sync(...)]. *)
Definition on_authenticated (rejected : option Js.error) (p : process)
  : process :=
  match rejected with
  | None =>
      let p := log DatabaseAuthenticated p in
      let a := database env (retries p) in
      settles (Synced (sync a)) (sync_after a) p
  | Some err => on_error err p
  end.

(** The second [.then]. *)
Definition on_synced (rejected : option Js.error) (p : process) : process :=
  match rejected with
  | None =>
      let p := log DatabaseSynced p in
      set_dbConnected p
  | Some err => on_error err p
  end.

(** The callback of the 1000 ms timer. *)
Definition register_routes (p : process) : process :=
  let p := use CustomerRoutes p in
  log RoutesRegistered p.

(** The top-level statements of the script, in order. *)
Inductive statement : Type :=
| UseCors | UseJson | GetHealth | CallConnectDB | RoutesTimer
| UseErrorHandler | Listen.

Definition server_js : list statement :=
  [UseCors; UseJson; GetHealth; CallConnectDB; RoutesTimer;
   UseErrorHandler; Listen].

Definition exec (p : process) (s : statement) : process :=
  match s with
  | UseCors => use Cors p
  | UseJson => use Json p
  | GetHealth => use HealthCheck p
  | CallConnectDB => connectDB p
  | RoutesTimer => setTimeout RegisterRoutes 1000 p
  | UseErrorHandler => use ErrorHandler p
  | Listen => log (Listening (Js.or_else (PORT env) "8080")) (listen p)
  end.

Definition main : process := fold_left exec server_js start.

(** The pending task that is due first; among equals, the oldest. *)
Fixpoint earliest (l : list (Z * task)) : option ((Z * task) * list (Z * task)) :=
  match l with
  | [] => None
  | x :: l' =>
      match earliest l' with
      | None => Some (x, [])
      | Some (y, rest) =>
          if x.1 <=? y.1 then Some (x, l') else Some (y, x :: rest)
      end
  end.

Definition fire (t : task) (p : process) : process :=
  match t with
  | ConnectDB => connectDB p
  | Authenticated r => on_authenticated r p
  | Synced r => on_synced r p
  | RegisterRoutes => register_routes p
  end.

(** One turn of the event loop; [None] when the process has exited or
    nothing is pending. *)
Definition turn (p : process) : option process :=
  match exited p with
  | Some _ => None
  | None =>
      match earliest (timers p) with
      | None => None
      | Some ((due, t), rest) =>
          Some (fire t (Process (Z.max (now p) due) (dbConnected p)
                                (retries p) (stack p) (listening p) rest
                                (exited p) (console p)))
      end
  end.

Fixpoint run (fuel : nat) (p : process) : process :=
  match fuel with
  | O => p
  | S fuel' =>
      match turn p with
      | Some p' => run fuel' p'
      | None => p
      end
  end.

(** The whole startup: the script, then the event loop until nothing
    is left to do. *)
Definition boot : process := run 64 main.

(** The states of a run: after each statement of the script, and after
    each turn of the loop. *)
Inductive running : process -> Prop :=
| running_script n : running (fold_left exec (take n server_js) start)
| running_turn p p' : running p -> turn p = Some p' -> running p'.

End loop.

(** *** Serving a request *)

Inductive method : Type := GET | POST | PUT | DELETE.

(** A path is given by its segments: the path without its leading slash,
    split at the slashes.  [/] itself has no segment, and a path that
    ends in a slash has the empty string as its last segment.  The query
    string is not part of the path. *)

(** A segment made of letters, digits, [-], [.], [_] and [~], which no
    client escapes. *)
Definition unreserved (c : ascii) : bool :=
  let n := N_of_ascii c in
  Js.within 48 57 n || Js.within 65 90 n || Js.within 97 122 n
  || bool_decide (n ∈ [45; 46; 95; 126]%N).

Fixpoint plain (segment : string) : bool :=
  match segment with
  | EmptyString => true
  | String c s => unreserved c && plain s
  end.

(** How Express matches a route ([strict] and [caseSensitive] are off):
    letters match whatever their case, and one slash at the end of the
    path is ignored. *)
Definition literal (name segment : string) : bool :=
  String.eqb (Js.lower segment) name.

Fixpoint trimmed (path : list string) : list string :=
  match path with
  | [] => []
  | s :: path' =>
      match path' with
      | [] => if String.eqb s "" then [] else [s]
      | _ => s :: trimmed path'
      end
  end.

(** [/api/customers] and [/api/customers/:id]: the collection, or the
    segment that stands for [:id], which is not empty. *)
Definition resource (path : list string) : option (option string) :=
  match trimmed path with
  | [a; c] =>
      if literal "api" a && literal "customers" c then Some None else None
  | [a; c; i] =>
      if literal "api" a && literal "customers" c && negb (String.eqb i "")
      then Some (Some i) else None
  | _ => None
  end.

(** Modelled from the spec: the route table of
    [app/routes/customer.routes.js], which the script loads and which is
    not among the sources (section 6 of the specification, HTTP surface;
    the endpoints listed in the README of the backend).  With the
    operation comes the segment of the path that stands for [:id]. *)
Definition customer_routes (m : method) (path : list string)
  : option (operation * string) :=
  match m, resource path with
  | POST, Some None => Some (Create, "")
  | GET, Some None => Some (FindAll, "")
  | GET, Some (Some id) => Some (FindOne, id)
  | PUT, Some (Some id) => Some (Update, id)
  | DELETE, Some (Some id) => Some (Delete, id)
  | DELETE, Some None => Some (DeleteAll, "")
  | _, _ => None
  end.

(** After [next(err)] the ordinary layers are skipped; the first
    error-handling layer answers.  Without one Express answers itself, with
    the status of the error, which is 400 for a body that does not parse
    and for a parameter that does not decode. *)
Fixpoint on_next_error (st : list layer) : response :=
  match st with
  | [] => Response 400 NoRoute
  | ErrorHandler :: _ => Response 500 (Message "Internal Server Error")
  | _ :: st' => on_next_error st'
  end.

(** A request walks the stack; a layer that does not answer calls the
    next one, and the end of the stack is Express's own 404.  A route
    that matches hands the handler [req.params.id] decoded. *)
Fixpoint dispatch {W} (Customer : Model W) (st : list layer) (m : method)
    (path : list string) (b : gmap string Js.value) (w : W) : response * W :=
  match st with
  | [] => (Response 404 NoRoute, w)
  | Cors :: st' | Json :: st' | ErrorHandler :: st' =>
      dispatch Customer st' m path b w
  | HealthCheck :: st' =>
      match m, path with
      | GET, [] => (Response 200 (Health "Customer Management API" "ok"), w)
      | _, _ => dispatch Customer st' m path b w
      end
  | CustomerRoutes :: st' =>
      match customer_routes m path with
      | Some (o, segment) =>
          match Js.decodeURIComponent segment with
          | Some i => handle Customer o (Request i b) w
          | None => (on_next_error st', w)
          end
      | None => dispatch Customer st' m path b w
      end
  end.

(** A process answers once it listens and until it exits. *)
Definition serve {W} (Customer : Model W) (p : process) (m : method)
    (path : list string) (b : gmap string Js.value) (w : W)
  : option (response * W) :=
  if listening p && bool_decide (exited p = None)
  then Some (dispatch Customer (stack p) m path b w)
  else None.

(** *** Reading the console *)

(** The attempts announced on the console: when, and with which count. *)
Definition attempts (c : list (Z * line)) : list (Z * Z) :=
  omap (fun x => match x.2 with Attempting r _ => Some (x.1, r) | _ => None end) c.

(** The delays announced on the console. *)
Definition delays (c : list (Z * line)) : list Z :=
  omap (fun x => match x.2 with Retrying d => Some d | _ => None end) c.

(** *** What the database does, attempt by attempt *)

Definition fails (env : environment) (n : Z) : Prop :=
  auth (database env n) <> None \/ sync (database env n) <> None.

Definition succeeds (env : environment) (n : Z) : Prop :=
  auth (database env n) = None /\ sync (database env n) = None.

(** How long the n-th attempt takes to fail. *)
Definition took (env : environment) (n : Z) : Z :=
  let a := database env n in
  match auth a with
  | Some _ => Z.of_N (auth_after a)
  | None => Z.of_N (auth_after a) + Z.of_N (sync_after a)
  end.

(** When the n-th attempt begins, all earlier ones having failed: each
    failure is followed by a pause of [min(5000 * n, 30000)]. *)
Fixpoint begins (env : environment) (n : nat) : Z :=
  match n with
  | O => 0
  | S m =>
      match m with
      | O => 0
      | S _ =>
          begins env m + took env (Z.of_nat m)
          + Z.min (5000 * Z.of_nat m) 30000
      end
  end.

End server.

(** ** The shape of a startup run

    What holds of the process between two turns of the event loop, stated
    on the number [m] of attempts made so far. *)

Module startup.
Section shape.

Variable env : server.environment.

(** The pause announced after the failure of attempt [k]. *)
Definition pause (k : nat) : Z := Z.min (5000 * Z.of_nat k) 30000.

Definition pauses (k : nat) : list Z := List.map pause (seq 1 k).

(** The attempts announced up to attempt [m]. *)
Definition announced (m : nat) : list (Z * Z) :=
  List.map (fun k => (server.begins env k, Z.of_nat k)) (seq 1 m).

Definition answer (m : nat) : server.attempt :=
  server.database env (Z.of_nat m).

(** Where the connection chain stands: the flag, the exit code, the
    pauses announced so far, and the one task it has pending, if any. *)
Inductive chain (m : nat)
  : bool -> option Z -> list Z -> list (Z * server.task) -> Prop :=
| authenticating :
    chain m false None (pauses (m - 1))
      [(server.begins env m + Z.of_N (server.auth_after (answer m)),
        server.Authenticated (server.auth (answer m)))]
| syncing :
    server.auth (answer m) = None ->
    chain m false None (pauses (m - 1))
      [(server.begins env m + Z.of_N (server.auth_after (answer m))
        + Z.of_N (server.sync_after (answer m)),
        server.Synced (server.sync (answer m)))]
| waiting :
    (m < 10)%nat ->
    server.fails env (Z.of_nat m) ->
    chain m false None (pauses m)
      [(server.begins env (S m), server.ConnectDB)]
| ready :
    server.succeeds env (Z.of_nat m) ->
    chain m true None (pauses (m - 1)) []
| dead :
    m = 10%nat ->
    server.fails env (Z.of_nat m) ->
    chain m false (Some 1) (pauses (m - 1)) [].

(** Where the 1000 ms timer stands, given the stack and the time. *)
Inductive routes (st : list server.layer) (t : Z)
  : list (Z * server.task) -> Prop :=
| routes_pending :
    server.CustomerRoutes ∉ st ->
    t <= 1000 ->
    routes st t [(1000, server.RegisterRoutes)]
| routes_registered :
    server.CustomerRoutes ∈ st ->
    routes st t [].

Record shape (p : server.process) (m : nat)
    (cn rt : list (Z * server.task)) : Prop := Shape {
  shape_retries : server.retries p = Z.of_nat m;
  shape_bounds : (1 <= m <= 10)%nat;
  shape_failed : forall j, (1 <= j < m)%nat -> server.fails env (Z.of_nat j);
  shape_attempts : server.attempts (server.console p) = announced m;
  shape_chain :
    chain m (server.dbConnected p) (server.exited p)
          (server.delays (server.console p)) cn;
  shape_routes : routes (server.stack p) (server.now p) rt;
  shape_timers : server.timers p = (cn ++ rt)%list
                 \/ server.timers p = (rt ++ cn)%list;
  shape_due : Forall (fun x => server.now p <= x.1) (server.timers p);
  shape_now : server.begins env m <= server.now p
}.

Definition weight (t : server.task) : nat :=
  match t with
  | server.Authenticated _ => 3
  | server.Synced _ => 2
  | server.ConnectDB => 1
  | server.RegisterRoutes => 1
  end.

Definition load (l : list (Z * server.task)) : nat :=
  list_sum (List.map (fun x => weight x.2) l).

(** A bound on the number of turns left. *)
Definition turns_left (p : server.process) : nat :=
  match server.exited p with
  | Some _ => 0
  | None =>
      4 * Z.to_nat (server.maxRetries - server.retries p)
      + load (server.timers p)
  end.

End shape.
End startup.

(** The path id [pk] denotes the record [c]. *)
Definition matches (pk : string) (c : customer) : Prop :=
  Pg.numeral pk = Ok (id c).

(** ** Sample requests and states *)

Module example.

(** A date reader that accepts no string: enough for bodies that carry
    no date. *)
Definition no_dates : string -> option Z := fun _ => None.

(** [{firstname:"Jane", lastname:"Doe", age:30, address:"12 Main St"}] *)
Definition jane : gmap string Js.value :=
  <["firstname" := Js.Str "Jane"]> (<["lastname" := Js.Str "Doe"]>
    (<["age" := Js.Num 30]> (<["address" := Js.Str "12 Main St"]> ∅))).

(** The record that a fresh database stores for [jane] at time [0]. *)
Definition jane_row : customer :=
  Customer_ 1 "Jane" "Doe" (Some 30) (Some "12 Main St") 0 0.

Definition jane_stored : Pg.world := Pg.World [jane_row] 1 0 None.

(** [{firstname:""}] *)
Definition blank_firstname : gmap string Js.value :=
  <["firstname" := Js.Str ""]> ∅.

Definition refused : Js.error :=
  Js.Error "connect ECONNREFUSED 127.0.0.1:5432".

Definition unreachable : Pg.world := Pg.World [] 0 0 (Some refused).

(** A database that refuses every connection after 10 ms. *)
Definition always_refused : server.environment :=
  server.Environment "" (fun _ => server.Attempt 10 (Some refused) 0 None).

(** A database that refuses twice and then accepts. *)
Definition third_time : server.environment :=
  server.Environment ""
    (fun n => if n <? 3 then server.Attempt 10 (Some refused) 0 None
              else server.Attempt 20 None 300 None).

(** A name of 256 characters. *)
Definition long_name : string := string_of_list_ascii (repeat "a"%char 256).

(** [{firstname: <256 characters>, lastname: "Doe"}] *)
Definition long_jane : gmap string Js.value :=
  <["firstname" := Js.Str long_name]> (<["lastname" := Js.Str "Doe"]> ∅).

(** The table after [PUT /api/customers/1] with body [{id: 2}]: the
    record of Jane Doe is stored under the id 2, and 2 is the next value
    of the sequence. *)
Definition jane_moved : Pg.world :=
  (Pg.update no_dates (<["id" := Js.Num 2]> ∅) (WhereId "1") jane_stored).2.

(** An ORM whose every call rejects with [e].  Its state is the console,
    on which it prints nothing. *)
Definition rejecting (e : Js.error) : Model (list string) := {|
  m_create := fun _ c => (Throw e, c);
  m_findAll := fun c => (Throw e, c);
  m_findByPk := fun _ c => (Throw e, c);
  m_update := fun _ _ c => (Throw e, c);
  m_destroy := fun _ c => (Throw e, c)
|}.

End example.

(** ** Requests in sequence *)

(** The handlers serve one request after the other, each on the state the
    previous one has left. *)
Fixpoint serve_all {W} (Customer : Model W)
    (l : list (operation * request)) (w : W) : list response * W :=
  match l with
  | [] => ([], w)
  | (o, req) :: l' =>
      let '(r, w1) := handle Customer o req w in
      let '(rs, w2) := serve_all Customer l' w1 in
      (r :: rs, w2)
  end.

(** ** [app/config/db.config.js] *)

Module db_config.

(** [v || fallback] for a variable of [process.env]: unset and empty are
    both falsy. *)
Definition or_default (v : option string) (fallback : string) : string :=
  Js.or_else (default "" v) fallback.

Record pool : Type := Pool {
  max : Z;
  min : Z;
  acquire : Z;
  idle : Z
}.

Record config : Type := Config {
  HOST : string;
  USER : string;
  PASSWORD : string;
  DB : string;
  PORT : Js.value;      (* the variable's text, or the number 5432 *)
  dialect : string;
  pool_ : pool
}.

Definition exports (env : gmap string string) : config := {|
  HOST := or_default (env !! "DB_HOST") "localhost";
  USER := or_default (env !! "DB_USER") "postgres";
  PASSWORD := or_default (env !! "DB_PASSWORD") "postgres";
  DB := or_default (env !! "DB_NAME") "customersdb";
  PORT := match env !! "DB_PORT" with
          | Some s => if String.eqb s "" then Js.Num 5432 else Js.Str s
          | None => Js.Num 5432
          end;
  dialect := "postgres";
  pool_ := Pool 5 0 30000 10000
|}.

(** The variables the configuration reads. *)
Definition variables : list string :=
  ["DB_HOST"; "DB_USER"; "DB_PASSWORD"; "DB_NAME"; "DB_PORT"].

End db_config.

(** ** Requests whose body does not parse, and errors passed to [next] *)

Module routing.

(** What [express.json()] finds in a request: a body that parses (an
    absent body parses to the empty object), or one that does not. *)
Inductive incoming : Type :=
| Parsed (b : gmap string Js.value)
| Malformed.

(** A request walks the stack up to the body parser.  [None]: a customer
    route placed before the parser, which no script of the repository
    builds and which is left out of the model. *)
Fixpoint receive {W} (Customer : Model W) (st : list server.layer)
    (m : server.method) (path : list string) (i : incoming) (w : W)
  : option (response * W) :=
  match st with
  | [] => Some (Response 404 NoRoute, w)
  | server.Cors :: st' | server.ErrorHandler :: st' =>
      receive Customer st' m path i w
  | server.Json :: st' =>
      match i with
      | Parsed b => Some (server.dispatch Customer st' m path b w)
      | Malformed => Some (server.on_next_error st', w)
      end
  | server.HealthCheck :: st' =>
      match m, path with
      | server.GET, [] =>
          Some (Response 200 (Health "Customer Management API" "ok"), w)
      | _, _ => receive Customer st' m path i w
      end
  | server.CustomerRoutes :: st' =>
      match server.customer_routes m path with
      | Some _ => None
      | None => receive Customer st' m path i w
      end
  end.

End routing.

(** ** The registration of the routes in time *)

Module timeline.

(** The stack that the script builds. *)
Definition base : list server.layer :=
  [server.Cors; server.Json; server.HealthCheck; server.ErrorHandler].

(** When the console says that the routes were registered. *)
Definition registrations (c : list (Z * server.line)) : list Z :=
  omap (fun x => match x.2 with
                 | server.RoutesRegistered => Some x.1
                 | _ => None
                 end) c.

(** Before and after the 1000 ms timer. *)
Definition window (p : server.process) : Prop :=
  (server.stack p = base /\ registrations (server.console p) = [])
  \/ (server.stack p = (base ++ [server.CustomerRoutes])%list
      /\ registrations (server.console p) = [1000]
      /\ 1000 <= server.now p).

End timeline.

(** ** [frontend/src/App.js] *)

Module App.

(** What [response.json()] yields: the array of the list endpoint, or a
    document that is not an array. *)
Inductive data : Type :=
| Array (cs : list customer)
| NotArray.

(** [await response.json()]: [None] when the body is not JSON (Express's
    own page), which rejects. *)
Definition json (r : response) : option data :=
  match sent r with
  | Many cs => Some (Array cs)
  | One _ | Message _ | Health _ _ => Some NotArray
  | NoRoute => None
  end.

(** [await fetch(url)]: it rejects when no answer comes, and resolves for
    every status. *)
Inductive fetched : Type :=
| Rejected
| Answered (r : response).

Record state : Type := State {
  customers : data;      (* useState([])    *)
  loading : bool;        (* useState(false) *)
  errors : nat           (* lines written by console.error *)
}.

Definition initial : state := State (Array []) false 0.

Definition setLoading (b : bool) (s : state) : state :=
  State (customers s) b (errors s).

Definition setCustomers (d : data) (s : state) : state :=
  State d (loading s) (errors s).

Definition console_error (s : state) : state :=
  State (customers s) (loading s) (S (errors s)).

Definition fetchCustomers (f : fetched) (s : state) : state :=
  let s := setLoading true s in
  let s := match f with
           | Answered response =>
               match json response with
               | Some d => setCustomers d s
               | None => console_error s
               end
           | Rejected => console_error s
           end in
  setLoading false s.

(** One row of the table: ID, First Name, Last Name, Age, Address. *)
Definition cells (c : customer)
  : Z * string * string * option Z * option string :=
  (id c, firstname c, lastname c, age c, address c).

Inductive view : Type :=
| Loading
| Table (rows : list (Z * string * string * option Z * option string))
| TypeError.     (* [customers.map] is not a function *)

Definition render (s : state) : view :=
  if loading s then Loading
  else match customers s with
       | Array cs => Table (List.map cells cs)
       | NotArray => TypeError
       end.

(** What the page's [GET /api/customers] gets from a backend process. *)
Definition get_customers {W} (Customer : Model W) (p : server.process) (w : W)
  : fetched :=
  match server.serve Customer p server.GET ["api"; "customers"] ∅ w with
  | Some (r, _) => Answered r
  | None => Rejected
  end.

(** The page once the effect of the first render has run. *)
Definition loaded {W} (Customer : Model W) (p : server.process) (w : W) : view :=
  render (fetchCustomers (get_customers Customer p w) initial).

End App.

(** * Properties *)

(** ** Numerals *)

Lemma digits_uint (d : Decimal.uint) :
  Pg.digits (NilEmpty.string_of_uint d) = (NilEmpty.string_of_uint d, "").
Proof.
  induction d; cbn; rewrite ?IHd; reflexivity.
Qed.

Lemma unsigned_uint (d : Decimal.uint) :
  d <> Decimal.Nil ->
  Pg.unsigned (NilEmpty.string_of_uint d) = Some (Z.of_uint d).
Proof.
  intros Hd. unfold Pg.unsigned. rewrite digits_uint. cbn [fst snd Pg.blank].
  generalize (NilZero.usu d Hd). unfold NilZero.string_of_uint.
  destruct d; try congruence; now intros ->.
Qed.

Lemma uint_head (d : Decimal.uint) :
  d <> Decimal.Nil ->
  exists c r, NilEmpty.string_of_uint d = String c r /\ Pg.digit c = true.
Proof. destruct d; try congruence; intros _; cbn; eauto. Qed.

Lemma integer_digit (c : ascii) (r : string) :
  Pg.digit c = true -> Pg.integer (String c r) = Pg.unsigned (String c r).
Proof.
  unfold Pg.digit, Pg.integer, Pg.ltrim, Pg.space, Js.within. intros H.
  apply andb_true_iff in H as [H1%N.leb_le H2%N.leb_le].
  replace (_ || _) with false.
  2:{ symmetry. apply orb_false_iff. split.
      - apply N.eqb_neq. lia.
      - apply andb_false_iff. right. apply N.leb_gt. lia. }
  destruct (Ascii.eqb_spec c "+") as [-> | _]; [cbn in H1; lia |].
  destruct (Ascii.eqb_spec c "-") as [-> | _]; [cbn in H1; lia |].
  reflexivity.
Qed.

Lemma integer_uint (p : positive) :
  Pg.integer (NilEmpty.string_of_uint (Pos.to_uint p)) = Some (Zpos p)
  /\ Pg.unsigned (NilEmpty.string_of_uint (Pos.to_uint p)) = Some (Zpos p).
Proof.
  assert (Hp : Pos.to_uint p <> Decimal.Nil).
  { intros H. now apply DecimalPos.Unsigned.to_uint_nonnil in H. }
  assert (Hu : Pg.unsigned (NilEmpty.string_of_uint (Pos.to_uint p))
               = Some (Zpos p)).
  { rewrite (unsigned_uint _ Hp). unfold Z.of_uint.
    now rewrite DecimalPos.Unsigned.of_to. }
  split; [| exact Hu].
  destruct (uint_head _ Hp) as (c & r & E & Hc).
  rewrite E in *. now rewrite (integer_digit _ _ Hc).
Qed.

Lemma integer_minus (r : string) :
  Pg.integer (String "-" r) = Z.opp <$> Pg.unsigned r.
Proof. reflexivity. Qed.

Lemma integer_show (n : Z) : Pg.integer (Js.show n) = Some n.
Proof.
  unfold Js.show.
  destruct n as [| p | p]; [reflexivity | |];
    cbn [Z.to_int NilZero.string_of_int]; unfold NilZero.string_of_uint;
    destruct (integer_uint p) as [H1 H2];
    destruct (Pos.to_uint p) eqn:E;
    try (exfalso; now apply DecimalPos.Unsigned.to_uint_nonnil in E);
    try exact H1;
    rewrite integer_minus, H2; reflexivity.
Qed.

Lemma numeral_show (n : Z) : Pg.int4 n = Ok n -> Pg.numeral (Js.show n) = Ok n.
Proof.
  unfold Pg.int4, Pg.numeral. rewrite integer_show.
  now destruct (_ && _).
Qed.

Lemma show_nonempty (n : Z) : Js.show n <> "".
Proof.
  intros H. generalize (integer_show n). rewrite H. discriminate.
Qed.

Lemma numeral_Ok (s : string) (k : Z) :
  Pg.numeral s = Ok k -> Pg.integer s = Some k /\ Pg.int4 k = Ok k.
Proof.
  unfold Pg.numeral, Pg.int4. destruct (Pg.integer s) as [n |]; [| discriminate].
  destruct (_ && _) eqn:E; [| discriminate].
  intros [= <-]. now rewrite E.
Qed.

Lemma truthy_Str (s : string) : Js.truthy (Js.Str s) = true <-> s <> "".
Proof.
  cbn. destruct (String.eqb_spec s ""); cbn; split; congruence.
Qed.

Lemma get_Some (o : gmap string Js.value) (k : string) (v : Js.value) :
  o !! k = Some v -> Js.get o k = v.
Proof. unfold Js.get. now intros ->. Qed.

Lemma get_None (o : gmap string Js.value) (k : string) :
  o !! k = None -> Js.get o k = Js.Undefined.
Proof. unfold Js.get. now intros ->. Qed.

Lemma missing_or_empty_falsy (o : gmap string Js.value) (k : string) :
  missing_or_empty o k -> Js.truthy (Js.get o k) = false.
Proof.
  intros [H | H].
  - now rewrite (get_None _ _ H).
  - now rewrite (get_Some _ _ _ H).
Qed.

Lemma non_empty_truthy (o : gmap string Js.value) (k : string) :
  non_empty o k -> Js.truthy (Js.get o k) = true.
Proof.
  intros (s & H & Hs). rewrite (get_Some _ _ _ H). now apply truthy_Str.
Qed.

(** ** The controller, for any ORM *)

Section any_orm.

Context {W : Type} (Customer : Model W).

(** [create] answers 400 exactly when one of the two names is falsy, and
    then calls nothing. *)
Lemma create_400 (req : request) (w : W) :
  Js.truthy (Js.get (body req) "firstname") = false
  \/ Js.truthy (Js.get (body req) "lastname") = false ->
  controller.create Customer req w
  = (Response 400 (Message "Firstname and Lastname are required!"), w).
Proof.
  intros H. unfold controller.create.
  destruct H as [-> | ->]; cbn; [reflexivity |].
  now rewrite orb_true_r.
Qed.

Lemma create_passes_guard (req : request) (w : W) :
  Js.truthy (Js.get (body req) "firstname") = true ->
  Js.truthy (Js.get (body req) "lastname") = true ->
  controller.create Customer req w
  = match m_create Customer
            (controller.picked (Js.get (body req) "firstname")
               (Js.get (body req) "lastname") (Js.get (body req) "age")
               (Js.get (body req) "address")) w with
    | (Ok customer, w') => (Response 201 (One customer), w')
    | (Throw error, w') =>
        (Response 500
           (Message (Js.or_else (Js.message error) "Error creating customer")),
         w')
    end.
Proof.
  intros H1 H2. unfold controller.create. now rewrite H1, H2.
Qed.

End any_orm.

(** ** The table model *)

Lemma bind_Ok {A B} (r : result A) (k : A -> result B) (b : B) :
  r ≫= k = Ok b -> exists a, r = Ok a /\ k a = Ok b.
Proof. destruct r as [a | e]; cbn; [eauto | discriminate]. Qed.

Lemma fmap_Ok {A B} (f : A -> B) (r : result A) (b : B) :
  f <$> r = Ok b -> exists a, r = Ok a /\ b = f a.
Proof. destruct r as [a | e]; cbn; [intros [= <-]; eauto | discriminate]. Qed.

(** Splits a hypothesis [x ← r; k = Ok b] into [r = Ok x] and [k x = Ok b]. *)
Tactic Notation "bind_inv" hyp(H) :=
  let a := fresh "a" in
  let Ha := fresh "Ha" in
  apply bind_Ok in H; destruct H as (a & Ha & H).

Tactic Notation "bind_inv" hyp(H) "as" ident(a) ident(Ha) :=
  apply bind_Ok in H; destruct H as (a & Ha & H).

Lemma picked_get (f l a d : Js.value) :
  Js.get (controller.picked f l a d) "firstname" = f
  /\ Js.get (controller.picked f l a d) "lastname" = l
  /\ Js.get (controller.picked f l a d) "age" = a
  /\ Js.get (controller.picked f l a d) "address" = d
  /\ Js.get (controller.picked f l a d) "id" = Js.Undefined
  /\ Js.get (controller.picked f l a d) "createdAt" = Js.Undefined.
Proof.
  unfold Js.get, controller.picked.
  repeat split; by simplify_map_eq.
Qed.

Lemma connected_Ok (w : Pg.world) (u : unit) :
  Pg.connected w = Ok u -> Pg.outage w = None.
Proof. unfold Pg.connected. destruct (Pg.outage w); [discriminate | auto]. Qed.

Lemma connected_up (w : Pg.world) :
  Pg.outage w = None -> Pg.connected w = Ok ().
Proof. unfold Pg.connected. now intros ->. Qed.

Lemma int4_Ok (n m : Z) : Pg.int4 n = Ok m -> m = n /\ Pg.int4 m = Ok m.
Proof.
  unfold Pg.int4. destruct (_ && _) eqn:E; [| discriminate].
  intros [= <-]. now rewrite E.
Qed.

(** What the database has read when an INSERT goes through. *)
Lemma inserted_Ok dp (values : gmap string Js.value) (w : Pg.world)
    (fn ln : string) (ag : option Z) (ad : option string) (given cr : option Z) :
  Pg.inserted dp values w = Ok (fn, ln, ag, ad, given, cr) ->
  Pg.outage w = None
  /\ Pg.STRING "firstname" (Js.get values "firstname") = Ok (Some fn)
  /\ Pg.STRING "lastname" (Js.get values "lastname") = Ok (Some ln)
  /\ Pg.INTEGER (Js.get values "age") = Ok ag
  /\ Pg.STRING "address" (Js.get values "address") = Ok ad
  /\ Pg.INTEGER (Js.get values "id") = Ok given
  /\ Pg.DATE dp (Js.get values "createdAt") = Ok cr.
Proof.
  unfold Pg.inserted. intros H.
  bind_inv H as u Hv. bind_inv H as u' Hup. apply connected_Ok in Hup.
  bind_inv H as fn' Hfn. bind_inv Hfn as x Hx.
  bind_inv H as ln' Hln. bind_inv Hln as y Hy.
  bind_inv H as ag' Hag. bind_inv H as ad' Had.
  bind_inv H as gv' Hgv. bind_inv H as cr' Hcr.
  injection H as <- <- <- <- <- <-.
  destruct x as [x |]; [injection Hfn as -> | discriminate].
  destruct y as [y |]; [injection Hln as -> | discriminate].
  repeat split; assumption.
Qed.

(** What a successful INSERT through the controller has done. *)
Lemma create_picked_Ok dp (f l a d : Js.value) (w w' : Pg.world) (c : customer) :
  Pg.create dp (controller.picked f l a d) w = (Ok c, w') ->
  Pg.outage w = None
  /\ Pg.STRING "firstname" f = Ok (Some (firstname c))
  /\ Pg.STRING "lastname" l = Ok (Some (lastname c))
  /\ Pg.INTEGER a = Ok (age c)
  /\ Pg.STRING "address" d = Ok (address c)
  /\ id c = Pg.serial w + 1
  /\ Pg.int4 (id c) = Ok (id c)
  /\ Pg.taken (id c) (Pg.rows w) = false
  /\ createdAt c = Pg.clock w
  /\ updatedAt c = Pg.clock w
  /\ w' = Pg.World (Pg.rows w ++ [c]) (Pg.serial w + 1) (Pg.clock w) (Pg.outage w).
Proof.
  unfold Pg.create.
  destruct (Pg.inserted _ _ _) as [[[[[[fn ln] ag] ad] given] cr] | e] eqn:E;
    [| discriminate].
  apply inserted_Ok in E.
  destruct (picked_get f l a d) as (Hf & Hl & Ha & Hd & Hi & Hc).
  rewrite Hf, Hl, Ha, Hd, Hi, Hc in E.
  destruct E as (Hup & Hfn & Hln & Hag & Had & [= <-] & [= <-]).
  destruct (Pg.int4 (Pg.serial w + 1)) as [i |] eqn:Ei; [| discriminate].
  apply int4_Ok in Ei as [-> Hi4].
  destruct (Pg.taken _ _) eqn:Ht; [discriminate |].
  intros [= <- <-]. cbn. repeat split; auto.
Qed.

(** An INSERT that fails leaves the rows as they were; the sequence may
    have moved forward. *)
Lemma create_Throw dp (values : gmap string Js.value) (w w' : Pg.world)
    (e : Js.error) :
  Pg.create dp values w = (Throw e, w') ->
  Pg.rows w' = Pg.rows w /\ Pg.clock w' = Pg.clock w
  /\ Pg.outage w' = Pg.outage w
  /\ (Pg.serial w' = Pg.serial w \/ Pg.serial w' = Pg.serial w + 1).
Proof.
  unfold Pg.create.
  destruct (Pg.inserted _ _ _) as [[[[[[fn ln] ag] ad] given] cr] | e0];
    [| intros [= _ <-]; auto].
  destruct given as [i |].
  - destruct (Pg.taken _ _); [intros [= _ <-]; auto | discriminate].
  - destruct (Pg.int4 _) as [i |] eqn:Ei; [| intros [= _ <-]; auto].
    apply int4_Ok in Ei as [-> _].
    destruct (Pg.taken _ _); [intros [= _ <-]; cbn; auto | discriminate].
Qed.

(** *** The primary key *)

Lemma taken_false (i : Z) (l : list customer) :
  Pg.taken i l = false <-> forall c, c ∈ l -> id c <> i.
Proof.
  unfold Pg.taken. induction l as [| a l IH]; cbn.
  - split; [intros _ c Hc; now apply elem_of_nil in Hc | auto].
  - rewrite orb_false_iff, IH, Z.eqb_neq. split.
    + intros [Ha Hl] c [-> | Hc]%elem_of_cons; auto.
    + intros H. split; [apply H; left | intros c Hc; apply H; now right].
Qed.

Lemma taken_true (i : Z) (l : list customer) :
  Pg.taken i l = true <-> exists c, c ∈ l /\ id c = i.
Proof.
  unfold Pg.taken. rewrite existsb_exists. split.
  - intros (c & Hc & E). exists c. split; [now apply list_elem_of_In | lia].
  - intros (c & Hc & E). exists c. split; [now apply list_elem_of_In | lia].
Qed.

Lemma distinct_snoc (l : list customer) (c : customer) :
  Pg.distinct l = true -> Pg.taken (id c) l = false ->
  Pg.distinct (l ++ [c]) = true.
Proof.
  induction l as [| a l IH]; cbn; [reflexivity |].
  intros [Ha Hl]%andb_true_iff [Hac Hc]%orb_false_iff.
  apply andb_true_iff. split; [| now apply IH].
  apply negb_true_iff, taken_false.
  intros x [Hx | ->%list_elem_of_singleton]%elem_of_app.
  - apply negb_true_iff in Ha. now apply (proj1 (taken_false _ _) Ha).
  - apply Z.eqb_neq in Hac. congruence.
Qed.

Lemma distinct_filter (f : customer -> bool) (l : list customer) :
  Pg.distinct l = true -> Pg.distinct (List.filter f l) = true.
Proof.
  induction l as [| a l IH]; cbn; [reflexivity |].
  intros [Ha Hl]%andb_true_iff.
  destruct (f a); cbn; [| now apply IH].
  apply andb_true_iff. split; [| now apply IH].
  apply negb_true_iff in Ha. apply negb_true_iff, taken_false.
  intros c Hc. apply (proj1 (taken_false _ _) Ha).
  apply list_elem_of_In in Hc. apply filter_In in Hc as [Hc _].
  now apply list_elem_of_In.
Qed.

(** With distinct ids, a condition on the id selects one row or none. *)
Lemma distinct_count (k : Z) (l : list customer) :
  Pg.distinct l = true ->
  length (List.filter (fun c => id c =? k) l)
  = if Pg.taken k l then 1%nat else 0%nat.
Proof.
  induction l as [| a l IH]; cbn; [reflexivity |].
  intros [Ha Hl]%andb_true_iff. specialize (IH Hl).
  destruct (id a =? k) eqn:E; cbn; [| exact IH].
  apply Z.eqb_eq in E. subst k.
  apply negb_true_iff in Ha. rewrite Ha in IH. now rewrite IH.
Qed.

Lemma find_snoc (l : list customer) (c : customer) :
  Pg.taken (id c) l = false ->
  List.find (fun x => id x =? id c) (l ++ [c]) = Some c.
Proof.
  induction l as [| a l IH]; cbn.
  - now rewrite Z.eqb_refl.
  - intros [-> Hc]%orb_false_iff. now apply IH.
Qed.

Lemma map_no_hit (hit : customer -> bool) (g : customer -> customer)
    (l : list customer) :
  List.filter hit l = [] ->
  List.map (fun c => if hit c then g c else c) l = l.
Proof.
  induction l as [| a l IH]; cbn; [reflexivity |].
  destruct (hit a); [discriminate |]. intros H. now rewrite IH.
Qed.

Lemma filter_all {A} (l : list A) : List.filter (fun _ => true) l = l.
Proof. induction l as [| a l IH]; cbn; [reflexivity | now rewrite IH]. Qed.

Lemma filter_none {A} (l : list A) : List.filter (fun _ => negb true) l = [].
Proof. induction l as [| a l IH]; cbn; [reflexivity | exact IH]. Qed.


(** *** What a successful statement has done *)

Lemma selects_id (pk : string) (hit : customer -> bool) :
  Pg.selects (WhereId pk) = Ok hit ->
  exists k, Pg.numeral pk = Ok k /\ hit = (fun c => id c =? k).
Proof.
  cbn. intros H. bind_inv H as k Hk. injection H as <-. eauto.
Qed.

Lemma updated_Ok dp (values : gmap string Js.value) (wh : where_)
    (w w' : Pg.world) (n : Z) :
  Pg.updated dp values wh w = Ok (n, w') ->
  exists ch hit,
    Pg.outage w = None
    /\ Pg.changes_of dp values = Ok ch
    /\ Pg.selects wh = Ok hit
    /\ Pg.distinct (Pg.rows w') = true
    /\ n = Z.of_nat (length (List.filter hit (Pg.rows w)))
    /\ w' = Pg.World
              (List.map (fun c => if hit c then Pg.amend ch (Pg.clock w) c else c)
                        (Pg.rows w))
              (Pg.serial w) (Pg.clock w) (Pg.outage w).
Proof.
  unfold Pg.updated. intros H.
  bind_inv H as u Hup. apply connected_Ok in Hup.
  bind_inv H as ch Hch. bind_inv H as hit Hhit.
  destruct (_ && _); [discriminate |].
  destruct (Pg.distinct _) eqn:D; [| discriminate].
  injection H as <- <-. exists ch, hit. cbn. repeat split; auto.
Qed.

(** An update answers a number either without a statement, and then the
    number is 0, or through an UPDATE statement. *)
Lemma update_Ok dp (values : gmap string Js.value) (wh : where_)
    (w w' : Pg.world) (n : Z) :
  Pg.update dp values wh w = (Ok n, w') ->
  (n = 0 /\ w' = w)
  \/ exists ch hit,
      Pg.outage w = None
      /\ Pg.changes_of dp values = Ok ch
      /\ Pg.selects wh = Ok hit
      /\ Pg.distinct (Pg.rows w') = true
      /\ n = Z.of_nat (length (List.filter hit (Pg.rows w)))
      /\ w' = Pg.World
                (List.map (fun c => if hit c then Pg.amend ch (Pg.clock w) c else c)
                          (Pg.rows w))
                (Pg.serial w) (Pg.clock w) (Pg.outage w).
Proof.
  unfold Pg.update.
  destruct (Pg.validate _ _); [| discriminate].
  destruct (forallb _ _); [intros [= <- <-]; now left |].
  unfold Pg.statement.
  destruct (Pg.updated _ _ _ _) as [[n' w''] | e] eqn:E; [| discriminate].
  intros [= <- <-]. right. now apply updated_Ok in E.
Qed.

Lemma update_Throw dp (values : gmap string Js.value) (wh : where_)
    (w w' : Pg.world) (e : Js.error) :
  Pg.update dp values wh w = (Throw e, w') -> w' = w.
Proof.
  unfold Pg.update.
  destruct (Pg.validate _ _); [| now intros [= _ <-]].
  destruct (forallb _ _); [discriminate |].
  unfold Pg.statement.
  destruct (Pg.updated _ _ _ _) as [[n' w''] | e']; [discriminate |].
  now intros [= _ <-].
Qed.

Lemma destroy_Ok (wh : where_) (w w' : Pg.world) (n : Z) :
  Pg.destroy wh w = (Ok n, w') ->
  exists hit,
    Pg.outage w = None
    /\ Pg.selects wh = Ok hit
    /\ n = Z.of_nat (length (List.filter hit (Pg.rows w)))
    /\ w' = Pg.World (List.filter (fun c => negb (hit c)) (Pg.rows w))
              (Pg.serial w) (Pg.clock w) (Pg.outage w).
Proof.
  unfold Pg.destroy, Pg.statement.
  destruct (Pg.destroyed _ _) as [[n' w''] | e] eqn:H; [| discriminate].
  intros [= <- <-]. unfold Pg.destroyed in H.
  bind_inv H as u Hup. apply connected_Ok in Hup. bind_inv H as hit Hhit.
  injection H as <- <-. exists hit. repeat split; auto.
Qed.

Lemma destroy_Throw (wh : where_) (w w' : Pg.world) (e : Js.error) :
  Pg.destroy wh w = (Throw e, w') -> w' = w.
Proof.
  unfold Pg.destroy, Pg.statement.
  destruct (Pg.destroyed _ _) as [[n' w''] | e']; [discriminate |].
  now intros [= _ <-].
Qed.

(** Reading never writes. *)
Lemma findAll_state dp (req : request) (w : Pg.world) :
  (controller.findAll (Pg.Customer dp) req w).2 = w.
Proof.
  unfold controller.findAll. cbn. unfold Pg.findAll.
  now destruct (_ ≫= _).
Qed.

Lemma findOne_state dp (req : request) (w : Pg.world) :
  (controller.findOne (Pg.Customer dp) req w).2 = w.
Proof.
  unfold controller.findOne. cbn. unfold Pg.findByPk.
  now destruct (_ ≫= _) as [[c |] | e].
Qed.

(** What each handler does to the table, the sequence, the clock and the
    connection. *)
Ltac on_create E :=
  unfold controller.create;
  destruct (negb _ || negb _);
    [| destruct (m_create _ _ _) as [[c | e] w'] eqn:E; cbn in E].

Ltac on_update E :=
  unfold controller.update;
  destruct (m_update _ _ _ _) as [[n | e] w'] eqn:E; cbn in E;
    [destruct (n =? 1) |].

Ltac on_delete E :=
  unfold controller.delete;
  destruct (m_destroy _ _ _) as [[n | e] w'] eqn:E; cbn in E;
    [destruct (n =? 1) |].

Ltac on_deleteAll E :=
  unfold controller.deleteAll;
  destruct (m_destroy _ _ _) as [[n | e] w'] eqn:E; cbn in E.

(** The ids of the stored records are pairwise distinct in every
    reachable state. *)
Lemma reachable_distinct dp (w : Pg.world) :
  reachable dp w -> Pg.distinct (Pg.rows w) = true.
Proof.
  induction 1 as [now | o req w Hw IH | w now e Hw IH]; cbn; auto.
  destruct o; cbn [handle].
  - on_create E; [exact IH | |].
    + apply create_picked_Ok in E.
      destruct E as (_ & _ & _ & _ & _ & _ & _ & Ht & _ & _ & ->).
      cbn. now apply distinct_snoc.
    + cbn. apply create_Throw in E as (-> & _). exact IH.
  - now rewrite findAll_state.
  - now rewrite findOne_state.
  - on_update E.
    1,2: apply update_Ok in E
           as [[_ ->] | (ch & hit & _ & _ & _ & D & _ & _)]; auto.
    apply update_Throw in E as ->. exact IH.
  - on_delete E.
    1,2: apply destroy_Ok in E as (hit & _ & _ & _ & ->); cbn;
         now apply distinct_filter.
    apply destroy_Throw in E as ->. exact IH.
  - on_deleteAll E.
    + apply destroy_Ok in E as (hit & _ & _ & _ & ->). cbn.
      now apply distinct_filter.
    + apply destroy_Throw in E as ->. exact IH.
Qed.

(** *** Values that the database takes *)

Lemma varchar_Ok (s s' : string) : Pg.varchar s = Ok s' -> s' = s.
Proof.
  unfold Pg.varchar. destruct (Pg.terminated s); [discriminate |].
  destruct (_ <=? _); [congruence | discriminate].
Qed.

Lemma varchar_fits (s : string) : Pg.fits s = true -> Pg.varchar s = Ok s.
Proof.
  unfold Pg.fits, Pg.varchar.
  intros [->%negb_true_iff ->]%andb_true_iff. reflexivity.
Qed.

Lemma int4_range (n : Z) :
  -2147483648 <= n <= 2147483647 -> Pg.int4 n = Ok n.
Proof.
  intros H. unfold Pg.int4.
  replace (_ && _) with true; [reflexivity |].
  symmetry. apply andb_true_iff. split; apply Z.leb_le; lia.
Qed.

Lemma STRING_text (column : string) (v : Js.value) (x : option string) :
  text_of v x -> Pg.STRING column v = Ok x.
Proof.
  destruct v as [| | b | n | s |]; cbn; try contradiction; try congruence.
  intros [-> Hs]. now rewrite (varchar_fits _ Hs).
Qed.

Lemma INTEGER_integer (v : Js.value) (x : option Z) :
  integer_of v x -> Pg.INTEGER v = Ok x.
Proof.
  destruct v as [| | b | n | s |]; cbn; try contradiction; try congruence.
  intros [-> Hn]. now rewrite (int4_range _ Hn).
Qed.

Lemma INTEGER_int4 (v : Js.value) (i : Z) :
  Pg.INTEGER v = Ok (Some i) -> Pg.int4 i = Ok i.
Proof.
  destruct v as [| | b | n | s |]; cbn; try discriminate.
  - intros H. apply fmap_Ok in H as (x & Hx & [= ->]).
    now apply int4_Ok in Hx as [-> Hx].
  - intros H. apply fmap_Ok in H as (x & Hx & [= ->]).
    now apply numeral_Ok in Hx as [_ Hx].
Qed.

(** The validator finds nothing wrong with a value of the type of its
    column. *)
Lemma violations_none (column : string) (allowNull text : bool) (v : Js.value) :
  (allowNull = false -> v <> Js.Null /\ v <> Js.Undefined) ->
  v <> Js.Object ->
  Pg.violations column allowNull text v = [].
Proof.
  intros Hn Ho. unfold Pg.violations.
  rewrite (bool_decide_eq_false_2 (v = Js.Object)) by exact Ho.
  rewrite andb_false_r. rewrite app_nil_r.
  destruct allowNull; [reflexivity |].
  destruct (Hn eq_refl) as [H1 H2].
  rewrite bool_decide_eq_false_2; [reflexivity |]. now intros [|].
Qed.

(** A create request with valid input, the database being reachable and
    the next value of the sequence being free, stores the record that
    the request describes. *)
Lemma create_valid dp (req : request) (w : Pg.world) (f l : string)
    (a : option Z) (d : option string) :
  valid_create (body req) f l a d ->
  Pg.outage w = None ->
  -2147483648 <= Pg.serial w + 1 <= 2147483647 ->
  Pg.taken (Pg.serial w + 1) (Pg.rows w) = false ->
  controller.create (Pg.Customer dp) req w
  = (Response 201
       (One (Customer_ (Pg.serial w + 1) f l a d (Pg.clock w) (Pg.clock w))),
     Pg.World
       (Pg.rows w
        ++ [Customer_ (Pg.serial w + 1) f l a d (Pg.clock w) (Pg.clock w)])
       (Pg.serial w + 1) (Pg.clock w) (Pg.outage w)).
Proof.
  intros ((Hf & Hf0 & Hf1) & (Hl & Hl0 & Hl1) & Ha & Hd) Hup Hs Ht.
  assert (Hdo : Js.get (body req) "address" <> Js.Object).
  { intros E. rewrite E in Hd. exact Hd. }
  rewrite create_passes_guard
    by (rewrite ?Hf, ?Hl; now apply truthy_Str).
  cbn [m_create Pg.Customer]. unfold Pg.create, Pg.inserted.
  destruct (picked_get (Js.get (body req) "firstname")
              (Js.get (body req) "lastname") (Js.get (body req) "age")
              (Js.get (body req) "address")) as (-> & -> & -> & -> & -> & ->).
  unfold Pg.validate, Pg.validated. cbn [flat_map fst snd].
  destruct (picked_get (Js.get (body req) "firstname")
              (Js.get (body req) "lastname") (Js.get (body req) "age")
              (Js.get (body req) "address")) as (-> & -> & -> & -> & _).
  rewrite Hf, Hl.
  assert (Hao : Js.get (body req) "age" <> Js.Object).
  { intros E. rewrite E in Ha. exact Ha. }
  rewrite !violations_none by (try split; try discriminate; assumption).
  cbn [app]. cbn [mbind result_bind].
  rewrite (connected_up _ Hup). cbn [mbind result_bind Pg.STRING].
  rewrite (varchar_fits _ Hf1), (varchar_fits _ Hl1).
  cbn [mbind result_bind fmap result_fmap Pg.notNull].
  rewrite (INTEGER_integer _ _ Ha), (STRING_text _ _ _ Hd).
  cbn. rewrite (int4_range _ Hs), Ht. reflexivity.
Qed.

(** *** Bodies of update *)

Lemma update_body_field (o : gmap string Js.value) (k : string) (v : Js.value) :
  update_body o = true -> o !! k = Some v -> update_field k v = true.
Proof.
  unfold update_body. rewrite forallb_forall. intros H Hk.
  apply (H (k, v)). apply list_elem_of_In. now apply elem_of_map_to_list.
Qed.

Lemma update_body_absent (o : gmap string Js.value) (k : string) :
  update_body o = true -> (forall v, update_field k v = false) -> o !! k = None.
Proof.
  intros H Hk. destruct (o !! k) as [v |] eqn:E; [| reflexivity].
  apply (update_body_field _ _ _ H) in E. rewrite Hk in E. discriminate.
Qed.

Lemma carried_spec (o : gmap string Js.value) (k : string) :
  k ∈ Pg.carried o <-> k ∈ Pg.attributes /\ Js.get o k <> Js.Undefined.
Proof.
  unfold Pg.carried.
  rewrite list_elem_of_In, filter_In, <- list_elem_of_In.
  rewrite negb_true_iff, bool_decide_eq_false. reflexivity.
Qed.

(** The keys of such a body are among the four fields, and none holds
    [undefined]. *)
Lemma update_body_keys (o : gmap string Js.value) (k : string) (v : Js.value) :
  update_body o = true -> o !! k = Some v ->
  k ∈ ["firstname"; "lastname"; "age"; "address"] /\ v <> Js.Undefined.
Proof.
  intros H Hk. apply (update_body_field _ _ _ H) in Hk.
  unfold update_field in Hk.
  destruct (String.eqb_spec k "firstname") as [-> | _];
    [split; [repeat constructor | now destruct v] |].
  destruct (String.eqb_spec k "lastname") as [-> | _];
    [split; [repeat constructor | now destruct v] |].
  cbn [orb] in Hk.
  destruct (String.eqb_spec k "age") as [-> | _];
    [split; [repeat constructor | now destruct v] |].
  destruct (String.eqb_spec k "address") as [-> | _];
    [split; [repeat constructor | now destruct v] |].
  discriminate.
Qed.

Lemma update_body_sets (o : gmap string Js.value) :
  update_body o = true -> o <> ∅ ->
  forallb (String.eqb "updatedAt") (Pg.carried o) = false.
Proof.
  intros H Ho. apply map_choose in Ho as (k & v & Hk).
  destruct (update_body_keys _ _ _ H Hk) as [Hin Hv].
  destruct (forallb _ _) eqn:E; [| reflexivity].
  rewrite forallb_forall in E.
  assert (Hc : k ∈ Pg.carried o).
  { apply carried_spec. rewrite (get_Some _ _ _ Hk). split; [| exact Hv].
    unfold Pg.attributes.
    repeat (apply elem_of_cons in Hin as [-> | Hin]; [repeat constructor |]).
    now apply elem_of_nil in Hin. }
  apply list_elem_of_In, E, String.eqb_eq in Hc. subst k.
  repeat (apply elem_of_cons in Hin as [Hin | Hin]; [discriminate |]).
  now apply elem_of_nil in Hin.
Qed.

Lemma update_body_valid (o : gmap string Js.value) :
  update_body o = true ->
  Pg.validate (fun column => bool_decide (Js.get o column = Js.Undefined)) o
  = Ok ().
Proof.
  intros H. unfold Pg.validate, Pg.validated. cbn [flat_map fst snd].
  assert (Hv : forall k allowNull text,
             k ∈ ["firstname"; "lastname"; "age"; "address"] ->
             (allowNull = false -> k = "firstname" \/ k = "lastname") ->
             (if bool_decide (Js.get o k = Js.Undefined) then []
              else Pg.violations k allowNull text (Js.get o k)) = []).
  { intros k allowNull text Hk Hn. unfold Js.get.
    destruct (o !! k) as [v |] eqn:E; cbn; [| reflexivity].
    destruct (bool_decide_reflect (v = Js.Undefined)); [reflexivity |].
    apply (update_body_field _ _ _ H) in E.
    apply violations_none.
    - intros ->. destruct (Hn eq_refl) as [-> | ->]; now destruct v.
    - intros ->. unfold update_field in E.
      repeat (apply elem_of_cons in Hk as [-> | Hk]; [discriminate |]).
      now apply elem_of_nil in Hk. }
  rewrite (Hv "firstname"), (Hv "lastname"), (Hv "age"), (Hv "address");
    try reflexivity; try discriminate; auto; repeat constructor.
Qed.

(** The SET clause of such a body. *)
Lemma update_body_changes dp (o : gmap string Js.value) :
  update_body o = true ->
  Pg.changes_of dp o
  = Ok (Pg.Changes None
          (match o !! "firstname" with Some (Js.Str s) => Some s | _ => None end)
          (match o !! "lastname" with Some (Js.Str s) => Some s | _ => None end)
          (match o !! "age" with
           | Some (Js.Num n) => Some (Some n)
           | Some _ => Some None
           | None => None
           end)
          (match o !! "address" with
           | Some (Js.Str s) => Some (Some s)
           | Some _ => Some None
           | None => None
           end)
          None false).
Proof.
  intros H. unfold Pg.changes_of, Js.get.
  rewrite (update_body_absent o "id" H) by reflexivity.
  rewrite (update_body_absent o "createdAt" H) by reflexivity.
  destruct (o !! "firstname") as [f |] eqn:Ef;
    [apply (update_body_field _ _ _ H) in Ef |];
  destruct (o !! "lastname") as [l |] eqn:El;
    [apply (update_body_field _ _ _ H) in El | |
     apply (update_body_field _ _ _ H) in El |];
  destruct (o !! "age") as [a |] eqn:Ea;
    try (apply (update_body_field _ _ _ H) in Ea);
  destruct (o !! "address") as [d |] eqn:Ed;
    try (apply (update_body_field _ _ _ H) in Ed);
  cbn in *;
  repeat match goal with
         | E : match ?v with _ => _ end = true |- _ =>
             destruct v; try discriminate E
         | E : _ && _ = true |- _ =>
             let E1 := fresh in let E2 := fresh in
             apply andb_true_iff in E as [E1%Z.leb_le E2%Z.leb_le]
         end;
  repeat (cbn; first [rewrite varchar_fits by assumption
                     | rewrite int4_range by lia]);
  reflexivity.
Qed.

Lemma taken_map (g : customer -> customer) (i : Z) (l : list customer) :
  (forall c, id (g c) = id c) ->
  Pg.taken i (List.map g l) = Pg.taken i l.
Proof.
  intros Hg. unfold Pg.taken.
  induction l as [| a l IH]; cbn; [reflexivity |]. now rewrite Hg, IH.
Qed.

Lemma distinct_map (g : customer -> customer) (l : list customer) :
  (forall c, id (g c) = id c) ->
  Pg.distinct (List.map g l) = Pg.distinct l.
Proof.
  intros Hg. induction l as [| a l IH]; cbn; [reflexivity |].
  now rewrite Hg, (taken_map g _ _ Hg), IH.
Qed.

(** The update of a body that carries fields the database takes, the
    database being reachable and the id a numeral: the row that has the
    id, if any, is amended. *)
Lemma update_body_done dp (req : request) (w : Pg.world) (k : Z) :
  Pg.outage w = None ->
  update_body (body req) = true ->
  body req <> ∅ ->
  Pg.numeral (params_id req) = Ok k ->
  Pg.distinct (Pg.rows w) = true ->
  exists ch,
    Pg.changes_of dp (body req) = Ok ch
    /\ Pg.set_id ch = None
    /\ Pg.set_createdAt ch = None
    /\ Pg.update dp (body req) (WhereId (params_id req)) w
       = (Ok (if Pg.taken k (Pg.rows w) then 1 else 0),
          Pg.World
            (List.map (fun c => if id c =? k then Pg.amend ch (Pg.clock w) c
                                else c) (Pg.rows w))
            (Pg.serial w) (Pg.clock w) (Pg.outage w)).
Proof.
  intros Hup Hb Hne Hk Hd.
  eexists. split; [exact (update_body_changes dp _ Hb) |].
  split; [reflexivity |]. split; [reflexivity |].
  unfold Pg.update.
  rewrite (update_body_valid _ Hb), (update_body_sets _ Hb Hne).
  unfold Pg.updated.
  rewrite (connected_up _ Hup), (update_body_changes dp _ Hb).
  cbn [mbind result_bind Pg.selects]. rewrite Hk.
  cbn [mbind result_bind Pg.nulls andb].
  rewrite distinct_map by (intros c; now destruct (id c =? k)).
  rewrite Hd. cbn [Pg.statement].
  rewrite (distinct_count _ _ Hd). now destruct (Pg.taken k (Pg.rows w)).
Qed.

(** The stored ids are within the range of the column. *)
Lemma reachable_int4 dp (w : Pg.world) :
  reachable dp w -> forall c, c ∈ Pg.rows w -> Pg.int4 (id c) = Ok (id c).
Proof.
  induction 1 as [now | o req w Hw IH | w now e Hw IH]; cbn; auto.
  { intros c Hc. now apply elem_of_nil in Hc. }
  destruct o; cbn [handle].
  - on_create E; [exact IH | |]; cbn.
    + apply create_picked_Ok in E.
      destruct E as (_ & _ & _ & _ & _ & _ & Hi & _ & _ & _ & ->).
      cbn. intros d [Hd | ->%list_elem_of_singleton]%elem_of_app; auto.
    + apply create_Throw in E as (-> & _). exact IH.
  - now rewrite findAll_state.
  - now rewrite findOne_state.
  - assert (Hrows : forall n w',
               Pg.update dp (body req) (WhereId (params_id req)) w = (Ok n, w') ->
               forall d, d ∈ Pg.rows w' -> Pg.int4 (id d) = Ok (id d)).
    { intros n w' E.
      apply update_Ok in E
        as [[_ ->] | (ch & hit & _ & Hch & _ & _ & _ & ->)]; [exact IH |].
      cbn. intros d Hd.
      apply list_elem_of_In, in_map_iff in Hd as (c & <- & Hc).
      apply list_elem_of_In in Hc.
      destruct (hit c); [| now apply IH]. cbn.
      destruct (Pg.set_id ch) as [i |] eqn:Ei; cbn; [| now apply IH].
      unfold Pg.changes_of in Hch. bind_inv Hch as x Hx.
      bind_inv Hch as fn Hfn. bind_inv Hch as ln Hln.
      bind_inv Hch as ag Hag. bind_inv Hch as ad Had. bind_inv Hch as cr Hcr.
      injection Hch as <-. cbn in Ei.
      destruct x as [[j |] |]; try discriminate. injection Ei as ->.
      unfold Pg.nullable in Hx.
      destruct (Js.get (body req) "id"); try discriminate;
        bind_inv Hx as y Hy; injection Hx as ->;
        now apply INTEGER_int4 in Hy. }
    on_update E; cbn; eauto.
    apply update_Throw in E as ->. exact IH.
  - assert (Hrows : forall n w',
               Pg.destroy (WhereId (params_id req)) w = (Ok n, w') ->
               forall d, d ∈ Pg.rows w' -> Pg.int4 (id d) = Ok (id d)).
    { intros n w' E. apply destroy_Ok in E as (hit & _ & _ & _ & ->).
      cbn. intros d Hd. apply list_elem_of_In, filter_In in Hd as [Hd _].
      apply IH. now apply list_elem_of_In. }
    on_delete E; cbn; eauto.
    apply destroy_Throw in E as ->. exact IH.
  - on_deleteAll E; cbn.
    + apply destroy_Ok in E as (hit & _ & _ & _ & ->).
      cbn. intros d Hd. apply list_elem_of_In, filter_In in Hd as [Hd _].
      apply IH. now apply list_elem_of_In.
    + apply destroy_Throw in E as ->. exact IH.
Qed.

Lemma find_distinct (l : list customer) (c : customer) :
  Pg.distinct l = true -> c ∈ l ->
  List.find (fun x => id x =? id c) l = Some c.
Proof.
  induction l as [| a l IH]; cbn; intros Hd Hc.
  - now apply elem_of_nil in Hc.
  - apply andb_true_iff in Hd as [Ha%negb_true_iff Hl].
    apply elem_of_cons in Hc as [-> | Hc]; [now rewrite Z.eqb_refl |].
    destruct (id a =? id c) eqn:E; [| now apply IH].
    apply Z.eqb_eq in E. exfalso.
    apply (proj1 (taken_false _ _) Ha c Hc). congruence.
Qed.

Lemma find_absent (k : Z) (l : list customer) :
  Pg.taken k l = false -> List.find (fun x => id x =? k) l = None.
Proof.
  induction l as [| a l IH]; cbn; [reflexivity |].
  intros [-> Hl]%orb_false_iff. now apply IH.
Qed.

Lemma findOne_up dp (req : request) (w : Pg.world) (k : Z) :
  Pg.outage w = None ->
  Pg.numeral (params_id req) = Ok k ->
  controller.findOne (Pg.Customer dp) req w
  = match List.find (fun x => id x =? k) (Pg.rows w) with
    | Some c => (Response 200 (One c), w)
    | None =>
        (Response 404
           (Message ("Customer with id=" +:+ params_id req +:+ " not found")), w)
    end.
Proof.
  intros Hup Hk. unfold controller.findOne. cbn. unfold Pg.findByPk.
  rewrite (connected_up _ Hup). cbn. rewrite Hk. cbn.
  now destruct (List.find _ _).
Qed.

(** ** Claims about single handlers *)

(** C5. A create request whose body has a missing or empty [firstname], or
    a missing or empty [lastname], is answered with status 400 and leaves
    the state of the persistence layer (hence the table) as it was; a
    request whose body has a non-empty [firstname] and a non-empty
    [lastname] is never answered with 400. *)
Theorem create_validates_names {W} (Customer : Model W) (req : request) (w : W) :
  (missing_or_empty (body req) "firstname"
   \/ missing_or_empty (body req) "lastname" ->
   controller.create Customer req w
   = (Response 400 (Message "Firstname and Lastname are required!"), w))
  /\ (non_empty (body req) "firstname" ->
      non_empty (body req) "lastname" ->
      status (controller.create Customer req w).1 <> 400).
Proof.
  split.
  - intros H. apply create_400.
    destruct H as [H | H]; [left | right]; now apply missing_or_empty_falsy.
  - intros H1%non_empty_truthy H2%non_empty_truthy.
    rewrite (create_passes_guard _ _ _ H1 H2).
    destruct (m_create _ _ _) as [[c | e] w']; cbn; lia.
Qed.

Lemma create_validates_names_witness :
  controller.create (Pg.Customer example.no_dates)
    (Request "" example.blank_firstname) example.jane_stored
  = (Response 400 (Message "Firstname and Lastname are required!"),
     example.jane_stored)
  /\ status (controller.create (Pg.Customer example.no_dates)
               (Request "" example.jane) example.jane_stored).1 <> 400.
Proof.
  split.
  - apply (proj1 (create_validates_names _ _ _)).
    left. right. reflexivity.
  - apply (proj2 (create_validates_names _ _ _)).
    + exists "Jane". split; [reflexivity | discriminate].
    + exists "Doe". split; [reflexivity | discriminate].
Defined.

(** C9. [create] reads the body through the four fields [firstname],
    [lastname], [age] and [address] only: two bodies that agree on them get
    the same answer and the same effect, whatever else they carry ([id],
    [createdAt], [updatedAt], ...).  On the table, the id of a created
    record is the next value of the sequence and both timestamps are the
    time of the insertion. *)
Theorem create_reads_four_fields :
  (forall W (Customer : Model W) (req req' : request) (w : W),
      (forall k, k ∈ create_fields -> body req !! k = body req' !! k) ->
      controller.create Customer req w = controller.create Customer req' w)
  /\ (forall dp (req : request) (w : Pg.world),
        status (controller.create (Pg.Customer dp) req w).1 = 201 ->
        exists c,
          sent (controller.create (Pg.Customer dp) req w).1 = One c
          /\ id c = Pg.serial w + 1
          /\ createdAt c = Pg.clock w
          /\ updatedAt c = Pg.clock w
          /\ Pg.rows (controller.create (Pg.Customer dp) req w).2
             = (Pg.rows w ++ [c])%list).
Proof.
  split.
  - intros W Customer req req' w H.
    unfold controller.create, Js.get.
    rewrite !H by (unfold create_fields; repeat constructor).
    reflexivity.
  - intros dp req w. on_create E; [cbn; lia | | cbn; lia].
    intros _. exists c.
    apply create_picked_Ok in E.
    destruct E as (_ & _ & _ & _ & _ & Hid & _ & _ & Hc & Hu & ->).
    cbn. auto.
Qed.

Lemma create_reads_four_fields_witness :
  controller.create (Pg.Customer example.no_dates)
    (Request "" (<["id" := Js.Num 77]> (<["createdAt" := Js.Num 5]> example.jane)))
    (Pg.empty 0)
  = controller.create (Pg.Customer example.no_dates)
      (Request "" example.jane) (Pg.empty 0)
  /\ exists c,
      sent (controller.create (Pg.Customer example.no_dates)
              (Request "" (<["id" := Js.Num 77]> example.jane)) (Pg.empty 0)).1
      = One c
      /\ id c = 1.
Proof.
  split.
  - apply (proj1 create_reads_four_fields).
    intros k Hk. unfold create_fields in Hk.
    repeat (apply elem_of_cons in Hk as [-> | Hk]; [reflexivity |]).
    now apply elem_of_nil in Hk.
  - destruct (proj2 create_reads_four_fields example.no_dates
                (Request "" (<["id" := Js.Num 77]> example.jane)) (Pg.empty 0))
      as (c & Hc & Hid & _); [reflexivity |].
    exists c. split; [exact Hc | exact Hid].
Defined.

(** C4, as the code has it.  When the ORM call of a handler throws, the
    handler answers 500.  [findOne], [update] and [delete] send a fixed
    text followed by the id of the request; [create], [findAll] and
    [deleteAll] send the message of the error itself, and a fixed text
    only when that message is empty.  The handler prints nothing and
    does nothing else: the state that it leaves, console included, is
    the state that the ORM call has left. *)
Theorem persistence_error_answers_500 {W} (Customer : Model W)
    (req : request) (w w' : W) (e : Js.error) :
  (Js.truthy (Js.get (body req) "firstname") = true ->
   Js.truthy (Js.get (body req) "lastname") = true ->
   m_create Customer
     (controller.picked (Js.get (body req) "firstname")
        (Js.get (body req) "lastname") (Js.get (body req) "age")
        (Js.get (body req) "address")) w = (Throw e, w') ->
   controller.create Customer req w
   = (Response 500
        (Message (Js.or_else (Js.message e) "Error creating customer")), w'))
  /\ (m_findAll Customer w = (Throw e, w') ->
      controller.findAll Customer req w
      = (Response 500
           (Message (Js.or_else (Js.message e) "Error retrieving customers")),
         w'))
  /\ (m_findByPk Customer (params_id req) w = (Throw e, w') ->
      controller.findOne Customer req w
      = (Response 500
           (Message ("Error retrieving customer with id=" +:+ params_id req)),
         w'))
  /\ (m_update Customer (body req) (WhereId (params_id req)) w = (Throw e, w') ->
      controller.update Customer req w
      = (Response 500
           (Message ("Error updating customer with id=" +:+ params_id req)),
         w'))
  /\ (m_destroy Customer (WhereId (params_id req)) w = (Throw e, w') ->
      controller.delete Customer req w
      = (Response 500
           (Message ("Error deleting customer with id=" +:+ params_id req)),
         w'))
  /\ (m_destroy Customer WhereAll w = (Throw e, w') ->
      controller.deleteAll Customer req w
      = (Response 500
           (Message (Js.or_else (Js.message e) "Error deleting all customers")),
         w')).
Proof.
  repeat split.
  - intros H1 H2 H. now rewrite (create_passes_guard _ _ _ H1 H2), H.
  - intros H. unfold controller.findAll. now rewrite H.
  - intros H. unfold controller.findOne. now rewrite H.
  - intros H. unfold controller.update. now rewrite H.
  - intros H. unfold controller.delete. now rewrite H.
  - intros H. unfold controller.deleteAll. now rewrite H.
Qed.

Lemma persistence_error_answers_500_witness :
  let Customer := Pg.Customer example.no_dates in
  let req := Request "1" example.jane in
  let w := example.unreachable in
  controller.create Customer req w
  = (Response 500 (Message "connect ECONNREFUSED 127.0.0.1:5432"), w)
  /\ controller.findAll Customer req w
     = (Response 500 (Message "connect ECONNREFUSED 127.0.0.1:5432"), w)
  /\ controller.findOne Customer req w
     = (Response 500 (Message "Error retrieving customer with id=1"), w)
  /\ controller.update Customer req w
     = (Response 500 (Message "Error updating customer with id=1"), w)
  /\ controller.delete Customer req w
     = (Response 500 (Message "Error deleting customer with id=1"), w)
  /\ controller.deleteAll Customer req w
     = (Response 500 (Message "connect ECONNREFUSED 127.0.0.1:5432"), w).
Proof.
  intros Customer req w.
  destruct (persistence_error_answers_500 Customer req w w example.refused)
    as (H1 & H2 & H3 & H4 & H5 & H6).
  split; [apply H1; reflexivity |].
  split; [apply H2; reflexivity |].
  split; [apply H3; reflexivity |].
  split; [apply H4; reflexivity |].
  split; [apply H5; reflexivity | apply H6; reflexivity].
Defined.

(** C4 as stated fails.  With the database unreachable, the body of the
    500 answer of [create], [findAll] and [deleteAll] is the text of the
    driver's error, not a text of the handler.  And with an ORM that
    rejects without printing, the console is after the request what it
    was before: the handler has sent the text of the error to the client
    and has logged nothing. *)
Lemma create_500_sends_error_text :
  (Pg.create example.no_dates
     (controller.picked (Js.Str "Jane") (Js.Str "Doe") (Js.Num 30)
        (Js.Str "12 Main St")) example.unreachable
   = (Throw example.refused, example.unreachable)
   /\ sent (controller.create (Pg.Customer example.no_dates)
              (Request "" example.jane) example.unreachable).1
      = Message (Js.message example.refused)
   /\ sent (controller.findAll (Pg.Customer example.no_dates)
              (Request "" ∅) example.unreachable).1
      = Message (Js.message example.refused)
   /\ sent (controller.deleteAll (Pg.Customer example.no_dates)
              (Request "" ∅) example.unreachable).1
      = Message (Js.message example.refused)
   /\ Js.message example.refused <> "Error creating customer")
  /\ (let console := ["Executing (default): SELECT 1+1 AS result"] in
      controller.create (example.rejecting example.refused)
        (Request "" example.jane) console
      = (Response 500 (Message "connect ECONNREFUSED 127.0.0.1:5432"), console)
      /\ controller.findAll (example.rejecting example.refused)
           (Request "" ∅) console
         = (Response 500 (Message "connect ECONNREFUSED 127.0.0.1:5432"),
            console)
      /\ controller.findOne (example.rejecting example.refused)
           (Request "1" ∅) console
         = (Response 500 (Message "Error retrieving customer with id=1"),
            console)).
Proof.
  split; [repeat split; try reflexivity; discriminate |].
  repeat split; reflexivity.
Qed.

(** ** Claims about the table *)

(** C7, as the code has it.  A create request with valid input (a
    non-empty [firstname] and a non-empty [lastname] of at most 255
    characters; no [age], [null] or an integer within the range of the
    column; no [address], [null] or a string of at most 255 characters;
    no string holding the NUL character), the database being reachable and the next value of the sequence being
    within range and not the id of a stored record, is answered with
    status 201 and the created record: its id is the next value of the
    sequence, its other fields are those of the request, its timestamps
    the time of the insertion.  A get-by-id with that id, on the state
    that the creation leaves (the id as [String] prints it, or any other
    path id that the database reads as that id), is answered with status
    200 and the very same record. *)
Theorem create_then_findOne dp (req : request) (w : Pg.world) (f l : string)
    (a : option Z) (d : option string) :
  valid_create (body req) f l a d ->
  Pg.outage w = None ->
  0 <= Pg.serial w < 2147483647 ->
  (forall c, c ∈ Pg.rows w -> id c <> Pg.serial w + 1) ->
  let c := Customer_ (Pg.serial w + 1) f l a d (Pg.clock w) (Pg.clock w) in
  let w' := Pg.World (Pg.rows w ++ [c]) (Pg.serial w + 1) (Pg.clock w)
              (Pg.outage w) in
  controller.create (Pg.Customer dp) req w = (Response 201 (One c), w')
  /\ matches (Js.show (id c)) c
  /\ forall req',
      matches (params_id req') c ->
      controller.findOne (Pg.Customer dp) req' w' = (Response 200 (One c), w').
Proof.
  intros Hv Hup Hs Hfree c w'.
  assert (Ht : Pg.taken (Pg.serial w + 1) (Pg.rows w) = false)
    by now apply taken_false.
  split; [apply create_valid; auto; lia |].
  split.
  - apply numeral_show, int4_range. cbn. lia.
  - intros req' Hm. unfold matches in Hm.
    rewrite (findOne_up dp req' w' _ Hup Hm). cbn [Pg.rows w'].
    now rewrite (find_snoc _ c Ht).
Qed.

Lemma create_then_findOne_witness :
  controller.create (Pg.Customer example.no_dates) (Request "" example.jane)
    (Pg.empty 0)
  = (Response 201 (One example.jane_row), example.jane_stored)
  /\ matches "1" example.jane_row
  /\ forall req',
      matches (params_id req') example.jane_row ->
      controller.findOne (Pg.Customer example.no_dates) req' example.jane_stored
      = (Response 200 (One example.jane_row), example.jane_stored).
Proof.
  apply (create_then_findOne example.no_dates (Request "" example.jane)
           (Pg.empty 0) "Jane" "Doe" (Some 30) (Some "12 Main St")).
  - repeat split; try reflexivity; discriminate.
  - reflexivity.
  - cbn. lia.
  - intros c Hc. now apply elem_of_nil in Hc.
Defined.

(** C7 as stated fails: a non-empty [firstname] and a non-empty
    [lastname] are not enough for status 201.  On a fresh and reachable
    database a [firstname] of 256 characters is answered 500, and so is
    an [age] beyond the range of the column; in the reachable state in
    which an update has moved the record of Jane Doe to the id 2, the
    next value of the sequence, a valid input is answered 500; and so it
    is when the database is unreachable. *)
Lemma valid_input_answered_500 :
  (non_empty example.long_jane "firstname"
   /\ non_empty example.long_jane "lastname"
   /\ status (controller.create (Pg.Customer example.no_dates)
                (Request "" example.long_jane) (Pg.empty 0)).1 = 500)
  /\ status (controller.create (Pg.Customer example.no_dates)
               (Request "" (<["age" := Js.Num 2147483648]> example.jane))
               (Pg.empty 0)).1 = 500
  /\ (reachable example.no_dates example.jane_moved
      /\ Pg.outage example.jane_moved = None
      /\ status (controller.create (Pg.Customer example.no_dates)
                   (Request "" example.jane) example.jane_moved).1 = 500)
  /\ status (controller.create (Pg.Customer example.no_dates)
               (Request "" example.jane) example.unreachable).1 = 500.
Proof.
  split; [split; [| split] |].
  - exists example.long_name. split; [reflexivity | discriminate].
  - exists "Doe". split; [reflexivity | discriminate].
  - vm_compute. reflexivity.
  - split; [vm_compute; reflexivity |].
    split; [| vm_compute; reflexivity].
    split; [| split; vm_compute; reflexivity].
    exact (reach_handle example.no_dates Update
             (Request "1" (<["id" := Js.Num 2]> ∅)) _
             (reach_handle example.no_dates Create (Request "" example.jane) _
                (reach_empty _ 0))).
Qed.

(** C8. From every state in which the database is reachable, delete-all is
    answered with status 200 and the number of records deleted, which is
    the number of records stored; the table is then empty, and a list on
    the state that it leaves is answered with status 200 and the empty
    collection. *)
Theorem deleteAll_then_findAll dp (req req' : request) (w : Pg.world) :
  Pg.outage w = None ->
  exists w',
    controller.deleteAll (Pg.Customer dp) req w
    = (Response 200
         (Message (Js.show (Z.of_nat (length (Pg.rows w)))
                   +:+ " customers deleted successfully")), w')
    /\ Pg.rows w' = []
    /\ controller.findAll (Pg.Customer dp) req' w' = (Response 200 (Many []), w').
Proof.
  intros Hup.
  unfold controller.deleteAll, controller.findAll. cbn.
  unfold Pg.destroy, Pg.destroyed, Pg.findAll.
  rewrite connected_up by exact Hup. cbn.
  rewrite filter_all, filter_none. eexists. split; [reflexivity |].
  split; [reflexivity |].
  unfold Pg.connected. cbn. now rewrite Hup.
Qed.

Lemma deleteAll_then_findAll_witness :
  exists w',
    controller.deleteAll (Pg.Customer example.no_dates) (Request "" ∅)
      example.jane_stored
    = (Response 200 (Message "1 customers deleted successfully"), w')
    /\ Pg.rows w' = []
    /\ controller.findAll (Pg.Customer example.no_dates) (Request "" ∅) w'
       = (Response 200 (Many []), w').
Proof.
  apply (deleteAll_then_findAll example.no_dates (Request "" ∅) (Request "" ∅)
           example.jane_stored).
  reflexivity.
Defined.

(** An update whose body is empty issues no statement. *)
Lemma update_nothing dp (req : request) (w : Pg.world) :
  body req = ∅ ->
  controller.update (Pg.Customer dp) req w
  = (Response 404
       (Message ("Cannot update customer with id=" +:+ params_id req)), w).
Proof.
  intros E. unfold controller.update. rewrite E. reflexivity.
Qed.

(** C6, as the code has it.  In a reachable state, with the database
    reachable, for a path id that is a numeral within the range of the
    column and a body that carries nothing but fields the database takes
    (a string of at most 255 characters, none of them NUL, for a name, an
    integer within range or [null] for the age, such a string or [null]
    for the address): when no stored record has the id, update is answered with
    status 404 and leaves the state as it was; when a stored record has
    it and the body carries at least one field, update is answered with
    status 200 and the confirmation message. *)
Theorem update_404_or_200 dp (req : request) (w : Pg.world) (k : Z) :
  reachable dp w ->
  Pg.outage w = None ->
  Pg.numeral (params_id req) = Ok k ->
  update_body (body req) = true ->
  ((forall c, c ∈ Pg.rows w -> id c <> k) ->
   controller.update (Pg.Customer dp) req w
   = (Response 404
        (Message ("Cannot update customer with id=" +:+ params_id req)), w))
  /\ ((exists c, c ∈ Pg.rows w /\ id c = k) ->
      body req <> ∅ ->
      (controller.update (Pg.Customer dp) req w).1
      = Response 200 (Message "Customer updated successfully")).
Proof.
  intros Hw%reachable_distinct Hup Hk Hb. split.
  - intros Hnone%taken_false.
    destruct (decide (body req = ∅)) as [E | E]; [now apply update_nothing |].
    destruct (update_body_done dp req w k Hup Hb E Hk Hw)
      as (ch & _ & _ & _ & Hu).
    unfold controller.update. cbn [m_update Pg.Customer]. rewrite Hu, Hnone.
    cbn. rewrite map_no_hit; [now destruct w |].
    apply length_zero_iff_nil. now rewrite (distinct_count _ _ Hw), Hnone.
  - intros Hsome%taken_true E.
    destruct (update_body_done dp req w k Hup Hb E Hk Hw)
      as (ch & _ & _ & _ & Hu).
    unfold controller.update. cbn [m_update Pg.Customer].
    now rewrite Hu, Hsome.
Qed.

Lemma update_404_or_200_witness :
  controller.update (Pg.Customer example.no_dates)
    (Request "2" example.jane) example.jane_stored
  = (Response 404 (Message "Cannot update customer with id=2"),
     example.jane_stored)
  /\ (controller.update (Pg.Customer example.no_dates)
        (Request " +1" example.jane) example.jane_stored).1
     = Response 200 (Message "Customer updated successfully").
Proof.
  assert (R : reachable example.no_dates example.jane_stored).
  { exact (reach_handle example.no_dates Create (Request "" example.jane) _
             (reach_empty _ 0)). }
  split.
  - apply (proj1 (update_404_or_200 example.no_dates
                    (Request "2" example.jane) example.jane_stored 2 R
                    eq_refl eq_refl eq_refl)).
    intros c Hc. apply list_elem_of_singleton in Hc as ->. cbn. lia.
  - apply (proj2 (update_404_or_200 example.no_dates
                    (Request " +1" example.jane) example.jane_stored 1 R
                    eq_refl eq_refl eq_refl)).
    + exists example.jane_row.
      split; [now apply list_elem_of_singleton | reflexivity].
    + intros E. apply (f_equal (fun o => o !! "age")) in E. discriminate.
Defined.

(** C6 as stated fails.  The table holds the record of Jane Doe under the
    id 1.  An update of id 1 with the empty body is answered 404, though
    the id matches that record; an update of the id [abc], which matches
    no record, is answered 500, not 404; so are an update of the id 2
    while the database is unreachable and an update of the id 2 that
    gives [null] for the [firstname]. *)
Lemma update_404_for_stored_id :
  (example.jane_row ∈ Pg.rows example.jane_stored
   /\ matches "1" example.jane_row
   /\ controller.update (Pg.Customer example.no_dates) (Request "1" ∅)
        example.jane_stored
      = (Response 404 (Message "Cannot update customer with id=1"),
         example.jane_stored))
  /\ ((forall c, c ∈ Pg.rows example.jane_stored -> ~ matches "abc" c)
      /\ controller.update (Pg.Customer example.no_dates)
           (Request "abc" example.jane) example.jane_stored
         = (Response 500 (Message "Error updating customer with id=abc"),
            example.jane_stored))
  /\ status (controller.update (Pg.Customer example.no_dates)
               (Request "2" example.jane)
               (Pg.World [example.jane_row] 1 0 (Some example.refused))).1
     = 500
  /\ status (controller.update (Pg.Customer example.no_dates)
               (Request "2" (<["firstname" := Js.Null]> ∅))
               example.jane_stored).1
     = 500.
Proof.
  split; [split; [| split] |].
  - now apply list_elem_of_singleton.
  - reflexivity.
  - reflexivity.
  - split; [split |].
    + intros c _. unfold matches. discriminate.
    + vm_compute. reflexivity.
    + split; vm_compute; reflexivity.
Qed.

(** *** Stored names *)

(** A STRING column stores the empty string only when it is given the
    empty string. *)
Lemma STRING_nonempty (column : string) (v : Js.value) (s : string) :
  v <> Js.Str "" -> Pg.STRING column v = Ok (Some s) -> s <> "".
Proof.
  intros Hv H. destruct v as [| | b | n | t |]; cbn in H; try discriminate.
  - apply fmap_Ok in H as (x & ->%varchar_Ok & [= ->]). now destruct b.
  - apply fmap_Ok in H as (x & ->%varchar_Ok & [= ->]). apply show_nonempty.
  - apply fmap_Ok in H as (x & ->%varchar_Ok & [= ->]). congruence.
Qed.

Lemma truthy_not_blank (v : Js.value) : Js.truthy v = true -> v <> Js.Str "".
Proof. intros H ->. discriminate. Qed.

Lemma named_filter (f : customer -> bool) (l : list customer) :
  named l -> named (List.filter f l).
Proof.
  unfold named. rewrite !Forall_forall. intros H c Hc. apply H.
  apply list_elem_of_In in Hc. apply filter_In in Hc as [Hc _].
  now apply list_elem_of_In.
Qed.

(** Creating, reading and deleting keep the stored names non-empty. *)
Lemma named_preserved dp (o : operation) (req : request) (w : Pg.world) :
  o <> Update ->
  named (Pg.rows w) ->
  named (Pg.rows (handle (Pg.Customer dp) o req w).2).
Proof.
  intros Ho Hw. destruct o; cbn [handle]; try congruence.
  - unfold controller.create.
    destruct (negb _ || negb _) eqn:G; [exact Hw |].
    apply orb_false_iff in G as [G1%negb_false_iff G2%negb_false_iff].
    destruct (m_create _ _ _) as [[c | e] w'] eqn:E; cbn in E; cbn.
    + apply create_picked_Ok in E.
      destruct E as (_ & Hf & Hl & _ & _ & _ & _ & _ & _ & _ & ->).
      cbn. apply Forall_app. split; [exact Hw |].
      apply Forall_singleton. split.
      * eapply STRING_nonempty; [| exact Hf]. now apply truthy_not_blank.
      * eapply STRING_nonempty; [| exact Hl]. now apply truthy_not_blank.
    + apply create_Throw in E as (-> & _). exact Hw.
  - now rewrite findAll_state.
  - now rewrite findOne_state.
  - on_delete E; cbn.
    1,2: apply destroy_Ok in E as (hit & _ & _ & _ & ->); cbn;
         now apply named_filter.
    apply destroy_Throw in E as ->. exact Hw.
  - on_deleteAll E; cbn.
    + apply destroy_Ok in E as (hit & _ & _ & _ & ->). cbn.
      now apply named_filter.
    + apply destroy_Throw in E as ->. exact Hw.
Qed.

Lemma required_STRING_nonempty (column : string) (v : Js.value) (s : string) :
  v <> Js.Str "" ->
  Pg.required column (Pg.STRING column) v = Ok (Some s) -> s <> "".
Proof.
  intros Hv H. unfold Pg.required in H.
  destruct v as [| | b | n | t |]; try discriminate;
    bind_inv H as x Hx; injection H as <-; bind_inv Hx as y Hy;
    (destruct y as [z |]; [injection Hx as <- | discriminate]);
    eapply STRING_nonempty; eauto.
Qed.

(** An update keeps the stored names non-empty unless its body gives the
    empty string for one of them. *)
Lemma update_keeps_names dp (req : request) (w : Pg.world) :
  Js.get (body req) "firstname" <> Js.Str "" ->
  Js.get (body req) "lastname" <> Js.Str "" ->
  named (Pg.rows w) ->
  named (Pg.rows (controller.update (Pg.Customer dp) req w).2).
Proof.
  intros Hf Hl Hw.
  assert (Hrows : forall n w',
             Pg.update dp (body req) (WhereId (params_id req)) w = (Ok n, w') ->
             named (Pg.rows w')).
  { intros n w' E.
    apply update_Ok in E
      as [[_ ->] | (ch & hit & _ & Hch & _ & _ & _ & ->)]; [exact Hw |].
    assert (Hn : forall c, (firstname c <> "" /\ lastname c <> "") ->
                 firstname (Pg.amend ch (Pg.clock w) c) <> ""
                 /\ lastname (Pg.amend ch (Pg.clock w) c) <> "").
    { unfold Pg.changes_of in Hch.
      bind_inv Hch as i Hi. bind_inv Hch as fn Hfn. bind_inv Hch as ln Hln.
      bind_inv Hch as ag Hag. bind_inv Hch as ad Had. bind_inv Hch as cr Hcr.
      injection Hch as <-. cbn.
      intros c [Hc1 Hc2]. split.
      - destruct fn as [s |]; cbn; [| exact Hc1].
        exact (required_STRING_nonempty _ _ _ Hf Hfn).
      - destruct ln as [s |]; cbn; [| exact Hc2].
        exact (required_STRING_nonempty _ _ _ Hl Hln). }
    unfold named in *. cbn. apply Forall_map. cbn.
    eapply Forall_impl; [exact Hw |]. intros c Hc.
    destruct (hit c); [now apply Hn | exact Hc]. }
  on_update E; cbn; eauto.
  apply update_Throw in E as ->. exact Hw.
Qed.

(** C1, at its failing input.  The table that holds the record created
    for Jane Doe is reachable and all its stored names are non-empty; the
    request [PUT /api/customers/1] with body [{firstname: ""}] is answered
    with status 200 and leaves a reachable table whose record has the empty
    [firstname]. *)
Theorem update_stores_empty_firstname :
  let after := controller.update (Pg.Customer example.no_dates)
                 (Request "1" example.blank_firstname) example.jane_stored in
  reachable example.no_dates example.jane_stored
  /\ named (Pg.rows example.jane_stored)
  /\ after.1 = Response 200 (Message "Customer updated successfully")
  /\ Pg.rows after.2 = [Customer_ 1 "" "Doe" (Some 30) (Some "12 Main St") 0 0]
  /\ reachable example.no_dates after.2
  /\ ~ named (Pg.rows after.2).
Proof.
  assert (R : reachable example.no_dates example.jane_stored).
  { exact (reach_handle example.no_dates Create (Request "" example.jane) _
             (reach_empty _ 0)). }
  cbv zeta. split; [exact R |].
  split; [apply Forall_singleton; split; discriminate |].
  split; [reflexivity |]. split; [reflexivity |].
  split.
  - exact (reach_handle example.no_dates Update
             (Request "1" example.blank_firstname) _ R).
  - intros H. apply Forall_inv in H as [H _]. now apply H.
Qed.

(** ** The startup run *)

Import startup.

#[local] Arguments announced : simpl never.
#[local] Arguments pauses : simpl never.
#[local] Arguments server.attempts : simpl never.
#[local] Arguments server.delays : simpl never.
#[local] Arguments server.begins : simpl never.
#[local] Arguments load : simpl never.

Section run_facts.

Variable env : server.environment.

Lemma took_nonneg (n : Z) : 0 <= server.took env n.
Proof. unfold server.took. destruct (server.auth _); lia. Qed.

Lemma pause_bounds (k : nat) : (1 <= k)%nat -> 5000 <= pause k <= 30000.
Proof. unfold pause. lia. Qed.

Lemma begins_S (m : nat) :
  (1 <= m)%nat ->
  server.begins env (S m)
  = server.begins env m + server.took env (Z.of_nat m) + pause m.
Proof. destruct m as [| m']; [lia | reflexivity]. Qed.

Lemma begins_nonneg (m : nat) : 0 <= server.begins env m.
Proof.
  induction m as [| m IH]; [change (0 <= 0); lia |].
  destruct m as [| m']; [change (0 <= 0); lia |].
  rewrite begins_S by lia.
  generalize (took_nonneg (Z.of_nat (S m'))) (pause_bounds (S m')). lia.
Qed.

Lemma begins_late (m : nat) : (2 <= m)%nat -> 5000 <= server.begins env m.
Proof.
  destruct m as [| [| m']]; try lia. intros _.
  rewrite begins_S by lia.
  generalize (begins_nonneg (S m')) (took_nonneg (Z.of_nat (S m')))
             (pause_bounds (S m')). lia.
Qed.

Lemma pauses_S (k : nat) : pauses (S k) = (pauses k ++ [pause (S k)])%list.
Proof. unfold pauses. now rewrite seq_S, map_app. Qed.

Lemma announced_S (m : nat) :
  announced env (S m)
  = (announced env m ++ [(server.begins env (S m), Z.of_nat (S m))])%list.
Proof. unfold announced. now rewrite seq_S, map_app. Qed.

Lemma attempts_snoc (c : list (Z * server.line)) (t : Z) (l : server.line) :
  server.attempts (c ++ [(t, l)])
  = (server.attempts c
     ++ match l with server.Attempting r _ => [(t, r)] | _ => [] end)%list.
Proof. unfold server.attempts. rewrite omap_app. now destruct l. Qed.

Lemma delays_snoc (c : list (Z * server.line)) (t : Z) (l : server.line) :
  server.delays (c ++ [(t, l)])
  = (server.delays c
     ++ match l with server.Retrying d => [d] | _ => [] end)%list.
Proof. unfold server.delays. rewrite omap_app. now destruct l. Qed.

(** The event loop picks from at most two pending tasks. *)
Lemma earliest_two (cn rt l : list (Z * server.task)) :
  (length cn <= 1)%nat -> (length rt <= 1)%nat ->
  l = (cn ++ rt)%list \/ l = (rt ++ cn)%list ->
  (server.earliest l = None /\ cn = [] /\ rt = [])
  \/ (exists x, cn = [x] /\ server.earliest l = Some (x, rt)
                /\ Forall (fun y => x.1 <= y.1) rt)
  \/ (exists x, rt = [x] /\ server.earliest l = Some (x, cn)
                /\ Forall (fun y => x.1 <= y.1) cn).
Proof.
  intros Hc Hr Hl.
  destruct cn as [| c [| ? ?]]; cbn in Hc; try lia;
    destruct rt as [| r [| ? ?]]; cbn in Hr; try lia;
    destruct Hl as [-> | ->]; cbn; eauto 10.
  - destruct (c.1 <=? r.1) eqn:E.
    + right. left. exists c. repeat split; auto.
      constructor; [lia | constructor].
    + right. right. exists r. repeat split; auto.
      constructor; [lia | constructor].
  - destruct (r.1 <=? c.1) eqn:E.
    + right. right. exists r. repeat split; auto.
      constructor; [lia | constructor].
    + right. left. exists c. repeat split; auto.
      constructor; [lia | constructor].
Qed.


Lemma chain_short m c x d cn : chain env m c x d cn -> (length cn <= 1)%nat.
Proof. destruct 1; cbn; lia. Qed.

Lemma routes_short st t rt : routes st t rt -> (length rt <= 1)%nat.
Proof. destruct 1; cbn; lia. Qed.

Lemma routes_later st t t' rt :
  routes st t rt -> Forall (fun y => t' <= y.1) rt -> routes st t' rt.
Proof.
  destruct 1 as [Hs Ht | Hs]; intros H.
  - apply Forall_inv in H. now constructor.
  - now constructor.
Qed.


Lemma load_app l l' : load (l ++ l') = (load l + load l')%nat.
Proof. unfold load. now rewrite map_app, list_sum_app. Qed.

Lemma load_one d t : load [(d, t)] = weight t.
Proof. unfold load. cbn. lia. Qed.

Lemma turns_left_running (q : server.process) :
  server.exited q = None ->
  turns_left q
  = (4 * Z.to_nat (server.maxRetries - server.retries q)
     + load (server.timers q))%nat.
Proof. unfold turns_left. now intros ->. Qed.

(** [connectDB], called by the timer that a failure has set. *)
Lemma connectDB_shape (q : server.process) (m : nat) rt :
  server.retries q = Z.of_nat m -> (1 <= m < 10)%nat ->
  (forall j, (1 <= j < S m)%nat -> server.fails env (Z.of_nat j)) ->
  server.attempts (server.console q) = announced env m ->
  server.delays (server.console q) = pauses m ->
  server.dbConnected q = false -> server.exited q = None ->
  server.timers q = rt ->
  routes (server.stack q) (server.now q) rt ->
  server.now q = server.begins env (S m) ->
  Forall (fun y => server.now q <= y.1) rt ->
  exists cn,
    shape env (server.connectDB env q) (S m) cn rt
    /\ turns_left (server.connectDB env q)
       = (4 * (10 - S m) + load rt + 3)%nat.
Proof.
  intros Hn Hb Hf Ha Hd Hc Hex Ht Hr Hnow Hdue.
  assert (Hm : Z.of_nat m + 1 = Z.of_nat (S m)) by lia.
  exists [(server.begins env (S m)
           + Z.of_N (server.auth_after (answer env (S m))),
           server.Authenticated (server.auth (answer env (S m))))].
  split.
  - constructor; cbn.
    + rewrite Hn. lia.
    + lia.
    + exact Hf.
    + rewrite attempts_snoc, Ha, announced_S, Hnow, Hn, Hm. reflexivity.
    + rewrite Hc, Hex, delays_snoc, app_nil_r, Hd.
      replace (pauses m) with (pauses (S m - 1)) by (f_equal; lia).
      apply authenticating.
    + exact Hr.
    + right. rewrite Ht, Hnow, Hn, Hm. reflexivity.
    + rewrite Ht. apply Forall_app. split; [exact Hdue |].
      constructor; [cbn; lia | constructor].
    + lia.
  - rewrite turns_left_running by (cbn; exact Hex). cbn.
    rewrite Ht, load_app, Hn. unfold server.maxRetries, load. cbn. lia.
Qed.

(** The [catch] of a failed attempt. *)
Lemma on_error_shape (q : server.process) (m : nat) rt (err : Js.error) :
  server.retries q = Z.of_nat m -> (1 <= m <= 10)%nat ->
  (forall j, (1 <= j < m)%nat -> server.fails env (Z.of_nat j)) ->
  server.fails env (Z.of_nat m) ->
  server.attempts (server.console q) = announced env m ->
  server.delays (server.console q) = pauses (m - 1) ->
  server.dbConnected q = false -> server.exited q = None ->
  server.timers q = rt ->
  routes (server.stack q) (server.now q) rt ->
  server.now q = server.begins env m + server.took env (Z.of_nat m) ->
  Forall (fun y => server.now q <= y.1) rt ->
  exists cn,
    shape env (server.on_error err q) m cn rt
    /\ (turns_left (server.on_error err q)
        <= 4 * (10 - m) + load rt + 1)%nat.
Proof.
  intros Hn Hb Hf Hm Ha Hd Hc Hex Ht Hr Hnow Hdue.
  generalize (took_nonneg (Z.of_nat m)) (begins_nonneg m). intros Htk Hbg.
  unfold server.on_error. cbn [server.log server.retries]. rewrite Hn.
  destruct (Z.of_nat m <? server.maxRetries) eqn:E.
  - apply Z.ltb_lt in E. unfold server.maxRetries in E.
    exists [(server.begins env (S m), server.ConnectDB)]. split.
    + constructor; cbn.
      * exact Hn.
      * exact Hb.
      * exact Hf.
      * now rewrite !attempts_snoc, !app_nil_r.
      * rewrite Hc, Hex, !delays_snoc, app_nil_r, Hd.
        replace (pauses (m - 1) ++ [(5000 * Z.of_nat m) `min` 30000])%list
          with (pauses m).
        { apply waiting; [lia | exact Hm]. }
        replace m with (S (m - 1)) at 1 by lia. rewrite pauses_S.
        unfold pause. do 4 f_equal; lia.
      * exact Hr.
      * right. rewrite Ht, Hnow, begins_S by lia. reflexivity.
      * rewrite Ht. apply Forall_app. split; [exact Hdue |].
        constructor; [cbn; lia | constructor].
      * lia.
    + rewrite turns_left_running by (cbn; exact Hex). cbn.
      rewrite Ht, load_app, Hn. unfold server.maxRetries, load. cbn. lia.
  - apply Z.ltb_ge in E. unfold server.maxRetries in E.
    assert (m = 10%nat) as -> by lia.
    exists []. split.
    + constructor; cbn.
      * exact Hn.
      * exact Hb.
      * exact Hf.
      * now rewrite !attempts_snoc, !app_nil_r.
      * rewrite Hc, !delays_snoc, !app_nil_r, Hd. now apply dead.
      * exact Hr.
      * left. exact Ht.
      * rewrite Ht. exact Hdue.
      * lia.
    + unfold turns_left. cbn. lia.
Qed.

(** The first [then], when [authenticate()] has resolved. *)
Lemma authenticated_shape (q : server.process) (m : nat) rt :
  server.retries q = Z.of_nat m -> (1 <= m <= 10)%nat ->
  (forall j, (1 <= j < m)%nat -> server.fails env (Z.of_nat j)) ->
  server.auth (answer env m) = None ->
  server.attempts (server.console q) = announced env m ->
  server.delays (server.console q) = pauses (m - 1) ->
  server.dbConnected q = false -> server.exited q = None ->
  server.timers q = rt ->
  routes (server.stack q) (server.now q) rt ->
  server.now q
  = server.begins env m + Z.of_N (server.auth_after (answer env m)) ->
  Forall (fun y => server.now q <= y.1) rt ->
  exists cn,
    shape env (server.on_authenticated env None q) m cn rt
    /\ turns_left (server.on_authenticated env None q)
       = (4 * (10 - m) + load rt + 2)%nat.
Proof.
  intros Hn Hb Hf Hau Ha Hd Hc Hex Ht Hr Hnow Hdue.
  generalize (begins_nonneg m). intros Hbg.
  exists [(server.begins env m + Z.of_N (server.auth_after (answer env m))
           + Z.of_N (server.sync_after (answer env m)),
           server.Synced (server.sync (answer env m)))].
  split.
  - constructor; cbn.
    + exact Hn.
    + exact Hb.
    + exact Hf.
    + now rewrite attempts_snoc, app_nil_r.
    + rewrite Hc, Hex, delays_snoc, app_nil_r, Hd. now apply syncing.
    + exact Hr.
    + right. rewrite Ht, Hnow, Hn. reflexivity.
    + rewrite Ht. apply Forall_app. split; [exact Hdue |].
      constructor; [cbn; lia | constructor].
    + lia.
  - rewrite turns_left_running by (cbn; exact Hex). cbn.
    rewrite Ht, load_app, Hn. unfold server.maxRetries, load. cbn. lia.
Qed.

(** The second [then], when [sync()] has resolved. *)
Lemma synced_shape (q : server.process) (m : nat) rt :
  server.retries q = Z.of_nat m -> (1 <= m <= 10)%nat ->
  (forall j, (1 <= j < m)%nat -> server.fails env (Z.of_nat j)) ->
  server.succeeds env (Z.of_nat m) ->
  server.attempts (server.console q) = announced env m ->
  server.delays (server.console q) = pauses (m - 1) ->
  server.exited q = None ->
  server.timers q = rt ->
  routes (server.stack q) (server.now q) rt ->
  server.begins env m <= server.now q ->
  Forall (fun y => server.now q <= y.1) rt ->
  shape env (server.on_synced None q) m [] rt
  /\ turns_left (server.on_synced None q) = (4 * (10 - m) + load rt)%nat.
Proof.
  intros Hn Hb Hf Hok Ha Hd Hex Ht Hr Hnow Hdue.
  split.
  - constructor; cbn.
    + exact Hn.
    + exact Hb.
    + exact Hf.
    + now rewrite attempts_snoc, app_nil_r.
    + rewrite Hex, delays_snoc, app_nil_r, Hd. now apply ready.
    + exact Hr.
    + left. exact Ht.
    + rewrite Ht. exact Hdue.
    + exact Hnow.
  - rewrite turns_left_running by (cbn; exact Hex). cbn.
    rewrite Ht, Hn. unfold server.maxRetries. lia.
Qed.

(** The callback of the 1000 ms timer. *)
Lemma register_routes_shape (q : server.process) (m : nat) cn :
  server.retries q = Z.of_nat m -> (1 <= m <= 10)%nat ->
  (forall j, (1 <= j < m)%nat -> server.fails env (Z.of_nat j)) ->
  server.attempts (server.console q) = announced env m ->
  chain env m (server.dbConnected q) (server.exited q)
    (server.delays (server.console q)) cn ->
  server.exited q = None ->
  server.timers q = cn ->
  server.begins env m <= server.now q ->
  Forall (fun y => server.now q <= y.1) cn ->
  shape env (server.register_routes q) m cn []
  /\ turns_left (server.register_routes q) = (4 * (10 - m) + load cn)%nat.
Proof.
  intros Hn Hb Hf Ha Hc Hex Ht Hnow Hdue.
  split.
  - constructor; cbn.
    + exact Hn.
    + exact Hb.
    + exact Hf.
    + now rewrite attempts_snoc, app_nil_r.
    + now rewrite delays_snoc, app_nil_r.
    + apply routes_registered. apply elem_of_app. right.
      now apply list_elem_of_singleton.
    + left. now rewrite app_nil_r.
    + rewrite Ht. exact Hdue.
    + exact Hnow.
  - rewrite turns_left_running by (cbn; exact Hex). cbn.
    rewrite Ht, Hn. unfold server.maxRetries. lia.
Qed.

(** One turn of the event loop keeps the shape and uses up a turn. *)
Ltac spend Hl :=
  match type of Hl with
  | context [turns_left ?x] =>
      match goal with
      | |- (turns_left ?y < _)%nat => change y with x
      end
  end;
  rewrite ?load_one; cbn [weight]; lia.

Lemma turn_shape p m cn rt p' :
  shape env p m cn rt ->
  server.turn env p = Some p' ->
  exists m' cn' rt',
    shape env p' m' cn' rt' /\ (turns_left p' < turns_left p)%nat.
Proof.
  intros [Hn Hb Hf Ha Hc Hr Ht Hd Hnow] Hturn.
  unfold server.turn in Hturn.
  destruct (server.exited p) as [code |] eqn:Hex; [discriminate |].
  assert (Hleft : turns_left p = (4 * (10 - m) + (load cn + load rt))%nat).
  { rewrite turns_left_running, Hn by exact Hex. unfold server.maxRetries.
    destruct Ht as [-> | ->]; rewrite load_app; lia. }
  assert (Hdues : Forall (fun x => server.now p <= x.1) cn
                  /\ Forall (fun x => server.now p <= x.1) rt).
  { destruct Ht as [Ht | Ht]; rewrite Ht in Hd;
      apply Forall_app in Hd; tauto. }
  destruct Hdues as [Hdc Hdr].
  destruct (earliest_two cn rt (server.timers p)
              (chain_short _ _ _ _ _ Hc) (routes_short _ _ _ Hr) Ht)
    as [(E & _ & _) | [(x & -> & E & Hle) | (x & -> & E & Hle)]];
    rewrite E in Hturn; [discriminate | |].
  - (* the connection chain moves *)
    destruct x as [due t]. injection Hturn as <-.
    apply Forall_inv in Hdc. cbn in Hdc, Hle.
    rewrite (Z.max_r _ _ Hdc). rewrite Hleft. clear Hleft E Ht Hd.
    assert (Hr' : routes (server.stack p) due rt).
    { now apply (routes_later _ _ _ _ Hr). }
    inversion Hc as [Hconn Hx Hdl Hcn | Hau Hconn Hx Hdl Hcn
                    | Hlt Hfm Hconn Hx Hdl Hcn | | ]; subst due t; clear Hc.
    + destruct (server.auth (answer env m)) as [err |] eqn:Hau.
      * match goal with |- context [server.fire env _ ?q] =>
        edestruct (on_error_shape q m rt err)
          as (cn' & Hs & Hl); [.. | exists m, cn', rt; split; [exact Hs |]];
          [cbn; eauto .. |] end.
        -- left. unfold answer in Hau. rewrite Hau. discriminate.
        -- unfold server.took. unfold answer in Hau. now rewrite Hau.
        -- spend Hl.
      * match goal with |- context [server.fire env _ ?q] =>
        edestruct (authenticated_shape q m rt)
          as (cn' & Hs & Hl); [.. | exists m, cn', rt; split; [exact Hs |]];
          [cbn; eauto .. |] end.
        spend Hl.
    + destruct (server.sync (answer env m)) as [err |] eqn:Hsy.
      * match goal with |- context [server.fire env _ ?q] =>
        edestruct (on_error_shape q m rt err)
          as (cn' & Hs & Hl); [.. | exists m, cn', rt; split; [exact Hs |]];
          [cbn; eauto .. |] end.
        -- right. unfold answer in Hsy. rewrite Hsy. discriminate.
        -- unfold server.took. unfold answer in Hau. rewrite Hau.
           unfold answer. lia.
        -- spend Hl.
      * match goal with |- context [server.fire env _ ?q] =>
        edestruct (synced_shape q m rt)
          as (Hs & Hl); [.. | exists m, [], rt; split; [exact Hs |]];
          [cbn; eauto .. |] end.
        -- now split.
        -- lia.
        -- spend Hl.
    + match goal with |- context [server.fire env _ ?q] =>
      edestruct (connectDB_shape q m rt)
        as (cn' & Hs & Hl); [.. | exists (S m), cn', rt; split; [exact Hs |]];
        [cbn; eauto .. |] end.
      * lia.
      * intros j Hj. destruct (decide (j = m)) as [-> | Hne]; [exact Hfm |].
        apply Hf. lia.
      * spend Hl.
  - (* the routes timer fires *)
    inversion Hr as [Hst Hle1000 Hx | ]; subst x. injection Hturn as <-.
    cbn in Hle. rewrite (Z.max_r _ _ Hle1000), Hleft.
    match goal with |- context [server.register_routes ?q] =>
    edestruct (register_routes_shape q m cn)
      as (Hs & Hl); [.. | exists m, cn, []; split; [exact Hs |]];
      [cbn; eauto .. |] end.
    + lia.
    + spend Hl.
Qed.

Lemma main_shape :
  exists cn rt, shape env (server.main env) 1 cn rt
                /\ (turns_left (server.main env) <= 40)%nat.
Proof.
  exists [(server.begins env 1 + Z.of_N (server.auth_after (answer env 1)),
           server.Authenticated (server.auth (answer env 1)))],
         [(1000, server.RegisterRoutes)].
  split.
  - constructor.
    + reflexivity.
    + lia.
    + intros j Hj. lia.
    + reflexivity.
    + apply authenticating.
    + apply routes_pending; [| cbn; lia].
      cbn. intros H. repeat (apply elem_of_cons in H as [H | H]; [discriminate |]).
      now apply elem_of_nil in H.
    + left. reflexivity.
    + cbn. repeat constructor; cbn; lia.
    + cbn. change (server.begins env 1) with 0. lia.
  - unfold turns_left, server.maxRetries, load. cbn. lia.
Qed.

(** Enough fuel runs the loop until nothing is left to do. *)
Lemma run_shape (fuel : nat) p m cn rt :
  shape env p m cn rt ->
  (turns_left p <= fuel)%nat ->
  exists m' cn' rt',
    shape env (server.run env fuel p) m' cn' rt'
    /\ server.turn env (server.run env fuel p) = None.
Proof.
  revert p m cn rt.
  induction fuel as [| fuel IH]; intros p m cn rt Hs Hl; cbn.
  - exists m, cn, rt. split; [exact Hs |].
    destruct (server.turn env p) as [p' |] eqn:E; [| reflexivity].
    destruct (turn_shape _ _ _ _ _ Hs E) as (? & ? & ? & _ & Hlt). lia.
  - destruct (server.turn env p) as [p' |] eqn:E.
    + destruct (turn_shape _ _ _ _ _ Hs E) as (m' & cn' & rt' & Hs' & Hlt).
      apply (IH _ _ _ _ Hs'). lia.
    + exists m, cn, rt. split; [exact Hs | exact E].
Qed.

(** When nothing is left to do, the process is connected or has exited
    with code 1. *)
Lemma settled_shape p m cn rt :
  shape env p m cn rt ->
  server.turn env p = None ->
  (server.dbConnected p = true /\ server.exited p = None
   /\ server.succeeds env (Z.of_nat m))
  \/ (server.dbConnected p = false /\ server.exited p = Some 1
      /\ m = 10%nat /\ server.fails env (Z.of_nat m)).
Proof.
  intros [Hn Hb Hf Ha Hc Hr Ht Hd Hnow] Hturn.
  unfold server.turn in Hturn.
  destruct (server.exited p) as [code |] eqn:Hex.
  - right. inversion Hc; subst. auto.
  - left.
    destruct (earliest_two cn rt (server.timers p)
                (chain_short _ _ _ _ _ Hc) (routes_short _ _ _ Hr) Ht)
      as [(E & -> & ->) | [(x & -> & E & Hle) | (x & -> & E & Hle)]];
      rewrite E in Hturn; try (destruct x; discriminate).
    inversion Hc; subst. auto.
Qed.

(** The routes timer has fired by the time the loop is done: an exit
    comes after the tenth attempt, which begins later than 1000 ms. *)
Lemma settled_routes p m cn rt :
  shape env p m cn rt ->
  server.turn env p = None ->
  server.CustomerRoutes ∈ server.stack p.
Proof.
  intros Hs Hturn.
  destruct (settled_shape _ _ _ _ Hs Hturn)
    as [(_ & Hex & _) | (_ & Hex & -> & _)];
    destruct Hs as [Hn Hb Hf Ha Hc Hr Ht Hd Hnow].
  - unfold server.turn in Hturn. rewrite Hex in Hturn.
    destruct (earliest_two cn rt (server.timers p)
                (chain_short _ _ _ _ _ Hc) (routes_short _ _ _ Hr) Ht)
      as [(E & -> & ->) | [(x & -> & E & Hle) | (x & -> & E & Hle)]];
      rewrite E in Hturn; try (destruct x; discriminate).
    now inversion Hr.
  - inversion Hr as [Hst Hle Hx | Hst Hx]; [| exact Hst].
    generalize (begins_late 10 ltac:(lia)). lia.
Qed.

End run_facts.

(** *** The states of a run *)

Lemma on_error_stack (err : Js.error) (q : server.process) :
  server.stack (server.on_error err q) = server.stack q.
Proof.
  unfold server.on_error.
  now destruct (server.retries _ <? server.maxRetries).
Qed.

Lemma fire_stack (env : server.environment) (t : server.task)
    (q : server.process) :
  exists extra,
    server.stack (server.fire env t q) = (server.stack q ++ extra)%list.
Proof.
  destruct t as [| [err |] | [err |] |]; cbn [server.fire];
    unfold server.on_authenticated, server.on_synced;
    rewrite ?on_error_stack;
    try (exists []; now rewrite app_nil_r).
  now exists [server.CustomerRoutes].
Qed.

Lemma turn_stack (env : server.environment) (p p' : server.process) :
  server.turn env p = Some p' ->
  exists extra, server.stack p' = (server.stack p ++ extra)%list.
Proof.
  unfold server.turn.
  destruct (server.exited p); [discriminate |].
  destruct (server.earliest (server.timers p)) as [[[due t] rest] |];
    [| discriminate].
  intros [= <-].
  match goal with
  | |- context [server.fire env t ?q] => exact (fire_stack env t q)
  end.
Qed.

(** Either the script has not got past registering the health check, and
    then nothing is pending, or the health check is the third layer. *)
Lemma script_stack (env : server.environment) (n : nat) :
  let p := fold_left (server.exec env) (take n server.server_js) server.start in
  (server.timers p = [] /\ server.retries p = 0 /\ server.listening p = false)
  \/ exists rest,
      server.stack p
      = ([server.Cors; server.Json; server.HealthCheck] ++ rest)%list.
Proof.
  destruct (le_lt_dec 7 n) as [Hn | Hn].
  - rewrite firstn_all2 by exact Hn. right. vm_compute. eexists; reflexivity.
  - do 7 (destruct n as [| n];
          [vm_compute;
           first [left; repeat split; reflexivity
                 | right; eexists; reflexivity] |]).
    lia.
Qed.

Lemma running_stack (env : server.environment) (p : server.process) :
  server.running env p ->
  (server.timers p = [] /\ server.retries p = 0 /\ server.listening p = false)
  \/ exists rest,
      server.stack p
      = ([server.Cors; server.Json; server.HealthCheck] ++ rest)%list.
Proof.
  induction 1 as [n | p p' Hp IH Hturn].
  - apply script_stack.
  - destruct IH as [(Ht & _ & _) | (rest & Hst)].
    + unfold server.turn in Hturn. rewrite Ht in Hturn. cbn in Hturn.
      destruct (server.exited p); discriminate.
    + destruct (turn_stack _ _ _ Hturn) as (extra & ->).
      right. exists (rest ++ extra)%list. rewrite Hst. now rewrite <- app_assoc.
Qed.

Lemma running_main (env : server.environment) :
  server.running env (server.main env).
Proof. exact (server.running_script env 7). Qed.

Lemma running_run (env : server.environment) (fuel : nat) (p : server.process) :
  server.running env p -> server.running env (server.run env fuel p).
Proof.
  revert p. induction fuel as [| fuel IH]; intros p Hp; cbn; [exact Hp |].
  destruct (server.turn env p) as [p' |] eqn:E; [| exact Hp].
  apply IH. now apply (server.running_turn env p p').
Qed.

(** ** Claims about the startup *)

(** C3. In every run of the startup: the loop comes to rest; the attempts
    announced on the console are counted 1, 2, ..., [retries], at most 10,
    the first at time 0 and each next one [min(5000 * n, 30000)]
    milliseconds after the failure of attempt [n], which is the delay
    announced; if one of the first 10 attempts succeeds, all earlier ones
    having failed, the process ends up connected and running, having made
    exactly that many attempts; if the first 10 attempts all fail, the
    process exits with code 1. *)
Theorem connectDB_retry_schedule (env : server.environment) :
  let p := server.boot env in
  server.turn env p = None
  /\ 1 <= server.retries p <= server.maxRetries
  /\ server.attempts (server.console p)
     = List.map (fun k => (server.begins env k, Z.of_nat k))
                (seq 1 (Z.to_nat (server.retries p)))
  /\ (forall k, (1 <= k)%nat ->
        server.begins env (S k)
        = server.begins env k + server.took env (Z.of_nat k)
          + Z.min (5000 * Z.of_nat k) 30000)
  /\ server.delays (server.console p)
     = List.map (fun k => Z.min (5000 * Z.of_nat k) 30000)
                (seq 1 (Z.to_nat (server.retries p) - 1))
  /\ (forall k, 1 <= k <= 10 ->
        server.succeeds env k ->
        (forall j, 1 <= j < k -> server.fails env j) ->
        server.retries p = k /\ server.dbConnected p = true
        /\ server.exited p = None)
  /\ ((forall j, 1 <= j <= 10 -> server.fails env j) ->
      server.retries p = 10 /\ server.exited p = Some 1
      /\ server.dbConnected p = false).
Proof.
  cbv zeta. unfold server.boot.
  destruct (main_shape env) as (cn0 & rt0 & Hs0 & Hl0).
  destruct (run_shape env 64 _ _ _ _ Hs0 ltac:(lia))
    as (m & cn & rt & Hs & Hturn).
  generalize (settled_shape env _ _ _ _ Hs Hturn). intros Hend.
  destruct Hs as [Hn Hb Hf Ha Hc Hr Ht Hd Hnow].
  set (p := server.run env 64 (server.main env)) in *.
  assert (Hm : Z.to_nat (server.retries p) = m) by (rewrite Hn; lia).
  assert (Hno : forall n, server.succeeds env n -> server.fails env n -> False).
  { intros n [H1 H2] [H | H]; congruence. }
  split; [exact Hturn |].
  split; [unfold server.maxRetries; lia |].
  split; [rewrite Hm; exact Ha |].
  split; [intros k Hk; now apply begins_S |].
  split.
  { rewrite Hm. inversion Hc; subst; try reflexivity.
    all: destruct Hend as [(? & ? & ?) | (? & ? & ? & ?)]; congruence. }
  split.
  - intros k Hk Hok Hfail.
    destruct Hend as [(Hconn & Hex & Hsucc) | (Hconn & Hex & -> & Hfm)].
    + destruct (Z.lt_trichotomy (Z.of_nat m) k) as [Hlt | [Heq | Hgt]].
      * exfalso. apply (Hno _ Hsucc). apply Hfail. lia.
      * rewrite Hn. auto.
      * exfalso. apply (Hno _ Hok).
        replace k with (Z.of_nat (Z.to_nat k)) by lia. apply Hf. lia.
    + exfalso. apply (Hno _ Hok).
      destruct (decide (k = 10)) as [-> | Hne]; [exact Hfm |].
      replace k with (Z.of_nat (Z.to_nat k)) by lia. apply Hf. lia.
  - intros Hall.
    destruct Hend as [(Hconn & Hex & Hsucc) | (Hconn & Hex & -> & Hfm)].
    + exfalso. apply (Hno _ Hsucc). apply Hall. lia.
    + rewrite Hn. auto.
Qed.

Lemma connectDB_retry_schedule_witness :
  (server.retries (server.boot example.third_time) = 3
   /\ server.dbConnected (server.boot example.third_time) = true
   /\ server.exited (server.boot example.third_time) = None)
  /\ (server.retries (server.boot example.always_refused) = 10
      /\ server.exited (server.boot example.always_refused) = Some 1
      /\ server.dbConnected (server.boot example.always_refused) = false).
Proof.
  split.
  - apply (proj1 (proj2 (proj2 (proj2 (proj2 (proj2
             (connectDB_retry_schedule example.third_time))))))).
    + lia.
    + split; reflexivity.
    + intros j Hj. left.
      assert (j = 1 \/ j = 2) as [-> | ->] by lia; cbn; discriminate.
  - apply (proj2 (proj2 (proj2 (proj2 (proj2 (proj2
             (connectDB_retry_schedule example.always_refused))))))).
    intros j Hj. left. cbn. discriminate.
Defined.

(** C10. In every state of a run, from the first statement of the script
    on: if a connection has been attempted, the health check is already
    registered; and once the process listens and as long as it has not
    exited, [GET /] is answered with status 200 and the fixed body
    [{message: 'Customer Management API', status: 'ok'}], whatever the
    state of the connection, of the ORM and of the database, which it
    leaves untouched. *)
Theorem health_check_ignores_database (env : server.environment)
    (p : server.process) :
  server.running env p ->
  (0 < server.retries p -> server.HealthCheck ∈ server.stack p)
  /\ (forall W (Customer : Model W) (b : gmap string Js.value) (w : W),
        server.listening p = true ->
        server.exited p = None ->
        server.serve Customer p server.GET [] b w
        = Some (Response 200 (Health "Customer Management API" "ok"), w)).
Proof.
  intros Hp. destruct (running_stack env p Hp) as [(_ & Hr & Hl) | (rest & Hst)].
  - split; [lia | congruence].
  - split.
    + intros _. rewrite Hst. set_solver.
    + intros W Customer b w Hl Hex. unfold server.serve.
      rewrite Hl, Hex, Hst. reflexivity.
Qed.

Lemma health_check_ignores_database_witness :
  server.HealthCheck ∈ server.stack (server.boot example.always_refused)
  /\ server.serve (Pg.Customer example.no_dates)
       (server.main example.always_refused) server.GET [] ∅ example.unreachable
     = Some (Response 200 (Health "Customer Management API" "ok"),
             example.unreachable).
Proof.
  split.
  - apply (proj1 (health_check_ignores_database example.always_refused
                    (server.boot example.always_refused)
                    (running_run _ 64 _ (running_main _)))).
    reflexivity.
  - apply (proj2 (health_check_ignores_database example.always_refused
                    (server.main example.always_refused) (running_main _)));
      reflexivity.
Defined.

(** Whatever the database does, the customer routes are registered by the
    time the startup has come to rest. *)
Lemma boot_registers_routes (env : server.environment) :
  server.CustomerRoutes ∈ server.stack (server.boot env).
Proof.
  unfold server.boot.
  destruct (main_shape env) as (cn0 & rt0 & Hs0 & Hl0).
  destruct (run_shape env 64 _ _ _ _ Hs0 ltac:(lia))
    as (m & cn & rt & Hs & Hturn).
  exact (settled_routes env _ _ _ _ Hs Hturn).
Qed.

(** C2, at its failing input: a database that refuses every connection
    after 10 ms.  After two turns of the loop it is time 1000: the first
    attempt has failed, the second is due at 5010, the flag [dbConnected]
    is unset, and the customer routes are registered and answer requests.
    When the run ends, all 10 attempts have failed, the process has exited
    with code 1, and the routes are registered. *)
Theorem routes_registered_while_database_refuses :
  let env := example.always_refused in
  let p := server.run env 2 (server.main env) in
  let q := server.boot env in
  (server.now p = 1000
   /\ server.retries p = 1
   /\ server.dbConnected p = false
   /\ server.exited p = None
   /\ server.timers p = [(5010, server.ConnectDB)]
   /\ server.stack p
      = [server.Cors; server.Json; server.HealthCheck; server.ErrorHandler;
         server.CustomerRoutes]
   /\ server.console p
      = [(0, server.Attempting 1 10); (0, server.Listening "8080");
         (10, server.DatabaseError "connect ECONNREFUSED 127.0.0.1:5432");
         (10, server.Retrying 5000); (1000, server.RoutesRegistered)]
   /\ server.serve (Pg.Customer example.no_dates) p server.GET
        ["api"; "customers"] ∅ example.unreachable
      = Some (Response 500 (Message "connect ECONNREFUSED 127.0.0.1:5432"),
              example.unreachable))
  /\ (server.retries q = 10
      /\ server.dbConnected q = false
      /\ server.exited q = Some 1
      /\ server.CustomerRoutes ∈ server.stack q
      /\ server.console q !! 4%nat = Some (1000, server.RoutesRegistered)).
Proof.
  cbv zeta. split.
  - repeat split; reflexivity.
  - split; [reflexivity |]. split; [reflexivity |]. split; [reflexivity |].
    split; [apply boot_registers_routes | reflexivity].
Qed.

(** * Further properties of the code *)

(** ** The controller, for any ORM *)

(** X1. Whatever the ORM does, each handler answers with one of the
    statuses of its own: [create] 201, 400 or 500; [findAll] and
    [deleteAll] 200 or 500; [findOne], [update] and [delete] 200, 404 or
    500. *)
Theorem handler_statuses {W} (Customer : Model W) (o : operation)
    (req : request) (w : W) :
  status (handle Customer o req w).1
  ∈ match o with
    | Create => [201; 400; 500]
    | FindAll | DeleteAll => [200; 500]
    | FindOne | Update | Delete => [200; 404; 500]
    end.
Proof.
  destruct o; cbn.
  - unfold controller.create.
    destruct (negb _ || negb _); [cbn; set_solver |].
    destruct (m_create _ _ _) as [[c | e] w']; cbn; set_solver.
  - unfold controller.findAll.
    destruct (m_findAll _ _) as [[cs | e] w']; cbn; set_solver.
  - unfold controller.findOne.
    destruct (m_findByPk _ _ _) as [[[c |] | e] w']; cbn; set_solver.
  - unfold controller.update.
    destruct (m_update _ _ _ _) as [[n | e] w']; [| cbn; set_solver].
    destruct (n =? 1); cbn; set_solver.
  - unfold controller.delete.
    destruct (m_destroy _ _ _) as [[n | e] w']; [| cbn; set_solver].
    destruct (n =? 1); cbn; set_solver.
  - unfold controller.deleteAll.
    destruct (m_destroy _ _ _) as [[n | e] w']; cbn; set_solver.
Qed.

Lemma truthy_false (v : Js.value) :
  Js.truthy v = false
  <-> v ∈ [Js.Undefined; Js.Null; Js.Bool false; Js.Num 0; Js.Str ""].
Proof.
  split.
  - destruct v as [| | [|] | n | s |]; cbn; try discriminate; intros H;
      try set_solver.
    + apply negb_false_iff, Z.eqb_eq in H. subst. set_solver.
    + apply negb_false_iff in H. apply String.eqb_eq in H. subst. set_solver.
  - intros H. repeat (apply elem_of_cons in H as [-> | H]; [reflexivity |]).
    now apply elem_of_nil in H.
Qed.

(** X2. [create] answers 400 exactly when [firstname] or [lastname] is
    falsy in the body: absent, [null], [false], the number 0 or the empty
    string.  Every other value, a non-empty string or not, passes. *)
Theorem create_400_exactly {W} (Customer : Model W) (req : request) (w : W) :
  status (controller.create Customer req w).1 = 400
  <-> (Js.get (body req) "firstname"
         ∈ [Js.Undefined; Js.Null; Js.Bool false; Js.Num 0; Js.Str ""]
       \/ Js.get (body req) "lastname"
         ∈ [Js.Undefined; Js.Null; Js.Bool false; Js.Num 0; Js.Str ""]).
Proof.
  rewrite <- !truthy_false. split.
  - intros H.
    destruct (Js.truthy (Js.get (body req) "firstname")) eqn:H1; [| now left].
    destruct (Js.truthy (Js.get (body req) "lastname")) eqn:H2; [| now right].
    rewrite (create_passes_guard _ _ _ H1 H2) in H.
    destruct (m_create _ _ _) as [[c | e] w']; cbn in H; lia.
  - intros H. now rewrite (create_400 _ _ _ H).
Qed.

(** ** The controller on the table *)

(** X3. With the database reachable, in a reachable state: get-by-id with
    the id of a stored record answers 200 with that record, and with a
    numeral in the range of the column that no record has it answers 404
    with the message that names the id.  The state is not changed. *)
Theorem findOne_found_or_404 dp (req : request) (w : Pg.world) :
  reachable dp w ->
  Pg.outage w = None ->
  (forall c, c ∈ Pg.rows w -> matches (params_id req) c ->
     controller.findOne (Pg.Customer dp) req w = (Response 200 (One c), w))
  /\ (forall k, Pg.numeral (params_id req) = Ok k ->
        (forall c, c ∈ Pg.rows w -> id c <> k) ->
        controller.findOne (Pg.Customer dp) req w
        = (Response 404
             (Message ("Customer with id=" +:+ params_id req +:+ " not found")),
           w)).
Proof.
  intros Hw Hup. split.
  - intros c Hc Hm. unfold matches in Hm.
    rewrite (findOne_up dp req w _ Hup Hm).
    now rewrite (find_distinct _ _ (reachable_distinct dp w Hw) Hc).
  - intros k Hk Hnone. rewrite (findOne_up dp req w _ Hup Hk).
    rewrite find_absent; [reflexivity |]. now apply taken_false.
Qed.

Lemma findOne_found_or_404_witness :
  controller.findOne (Pg.Customer example.no_dates) (Request "1" ∅)
    example.jane_stored
  = (Response 200 (One example.jane_row), example.jane_stored)
  /\ controller.findOne (Pg.Customer example.no_dates) (Request "2" ∅)
       example.jane_stored
     = (Response 404 (Message "Customer with id=2 not found"),
        example.jane_stored).
Proof.
  assert (R : reachable example.no_dates example.jane_stored).
  { exact (reach_handle example.no_dates Create (Request "" example.jane) _
             (reach_empty _ 0)). }
  split.
  - apply (proj1 (findOne_found_or_404 example.no_dates (Request "1" ∅)
                    example.jane_stored R eq_refl)).
    + now apply list_elem_of_singleton.
    + reflexivity.
  - apply (proj2 (findOne_found_or_404 example.no_dates (Request "2" ∅)
                    example.jane_stored R eq_refl) 2).
    + reflexivity.
    + intros c Hc. apply list_elem_of_singleton in Hc as ->. cbn. lia.
Defined.

Lemma filter_split {A} (f : A -> bool) (l : list A) :
  (length (List.filter f l) + length (List.filter (fun x => negb (f x)) l)
   = length l)%nat.
Proof.
  induction l as [| a l IH]; cbn; [reflexivity |].
  destruct (f a); cbn; lia.
Qed.

Lemma filter_keeps_all {A} (f : A -> bool) (l : list A) :
  List.filter f l = [] -> List.filter (fun x => negb (f x)) l = l.
Proof.
  induction l as [| a l IH]; cbn; [reflexivity |].
  destruct (f a); [discriminate |]. cbn. intros H. now rewrite IH.
Qed.

Lemma taken_filter_out (k : Z) (l : list customer) :
  Pg.taken k (List.filter (fun c => negb (id c =? k)) l) = false.
Proof.
  apply taken_false. intros c Hc E.
  apply list_elem_of_In, filter_In in Hc as [_ Hc].
  apply negb_true_iff, Z.eqb_neq in Hc. contradiction.
Qed.

(** What delete-one does for a numeral, the database being reachable. *)
Lemma delete_up dp (req : request) (w : Pg.world) (k : Z) :
  Pg.outage w = None ->
  Pg.numeral (params_id req) = Ok k ->
  Pg.distinct (Pg.rows w) = true ->
  controller.delete (Pg.Customer dp) req w
  = if Pg.taken k (Pg.rows w) then
      (Response 200 (Message "Customer deleted successfully"),
       Pg.World (List.filter (fun c => negb (id c =? k)) (Pg.rows w))
         (Pg.serial w) (Pg.clock w) (Pg.outage w))
    else
      (Response 404
         (Message ("Cannot delete customer with id=" +:+ params_id req)), w).
Proof.
  intros Hup Hk Hd.
  unfold controller.delete. cbn. unfold Pg.destroy, Pg.destroyed.
  rewrite (connected_up _ Hup). cbn. rewrite Hk. cbn.
  rewrite (distinct_count k _ Hd).
  destruct (Pg.taken k (Pg.rows w)) eqn:Ht; cbn; [reflexivity |].
  rewrite filter_keeps_all; [now destruct w |].
  apply length_zero_iff_nil. now rewrite (distinct_count k _ Hd), Ht.
Qed.

(** X4. With the database reachable, in a reachable state, for an id that
    is a numeral in the range of the column: if a record has it, delete-one
    answers 200, exactly that record is gone and every other one is kept,
    and a get-by-id with the same id then answers 404; if no record has
    it, delete-one answers 404 and the state is as it was. *)
Theorem delete_removes_the_record dp (req : request) (w : Pg.world) (k : Z) :
  reachable dp w ->
  Pg.outage w = None ->
  Pg.numeral (params_id req) = Ok k ->
  ((exists c, c ∈ Pg.rows w /\ id c = k) ->
   exists w',
     controller.delete (Pg.Customer dp) req w
     = (Response 200 (Message "Customer deleted successfully"), w')
     /\ (forall d, d ∈ Pg.rows w' <-> d ∈ Pg.rows w /\ id d <> k)
     /\ (length (Pg.rows w') + 1 = length (Pg.rows w))%nat
     /\ controller.findOne (Pg.Customer dp) req w'
        = (Response 404
             (Message ("Customer with id=" +:+ params_id req +:+ " not found")),
           w'))
  /\ ((forall c, c ∈ Pg.rows w -> id c <> k) ->
      controller.delete (Pg.Customer dp) req w
      = (Response 404
           (Message ("Cannot delete customer with id=" +:+ params_id req)), w)).
Proof.
  intros Hw%reachable_distinct Hup Hk.
  rewrite (delete_up dp req w k Hup Hk Hw).
  generalize (distinct_count k _ Hw). intros Hcount.
  generalize (filter_split (fun c => id c =? k) (Pg.rows w)). intros Hsplit.
  split.
  - intros Hex. apply taken_true in Hex. rewrite Hex in *.
    eexists. split; [reflexivity |]. cbn [Pg.rows].
    split; [| split].
    + intros d. rewrite list_elem_of_In, filter_In, <- list_elem_of_In.
      now rewrite negb_true_iff, Z.eqb_neq.
    + lia.
    + rewrite (findOne_up dp req _ k) by (cbn; auto). cbn [Pg.rows].
      now rewrite (find_absent _ _ (taken_filter_out k (Pg.rows w))).
  - intros Hnone. apply taken_false in Hnone. now rewrite Hnone.
Qed.

Lemma delete_removes_the_record_witness :
  (exists w',
      controller.delete (Pg.Customer example.no_dates) (Request "1" ∅)
        example.jane_stored
      = (Response 200 (Message "Customer deleted successfully"), w')
      /\ (forall d, d ∈ Pg.rows w' <-> d ∈ Pg.rows example.jane_stored /\ id d <> 1)
      /\ (length (Pg.rows w') + 1 = length (Pg.rows example.jane_stored))%nat
      /\ controller.findOne (Pg.Customer example.no_dates) (Request "1" ∅) w'
         = (Response 404 (Message "Customer with id=1 not found"), w'))
  /\ controller.delete (Pg.Customer example.no_dates) (Request "2" ∅)
       example.jane_stored
     = (Response 404 (Message "Cannot delete customer with id=2"),
        example.jane_stored).
Proof.
  assert (R : reachable example.no_dates example.jane_stored).
  { exact (reach_handle example.no_dates Create (Request "" example.jane) _
             (reach_empty _ 0)). }
  split.
  - apply (proj1 (delete_removes_the_record example.no_dates (Request "1" ∅)
                    example.jane_stored 1 R eq_refl eq_refl)).
    exists example.jane_row. split; [now apply list_elem_of_singleton | reflexivity].
  - apply (proj2 (delete_removes_the_record example.no_dates (Request "2" ∅)
                    example.jane_stored 2 R eq_refl eq_refl)).
    intros c Hc. apply list_elem_of_singleton in Hc as ->. cbn. lia.
Defined.

Lemma serve_all_cons {W} (Customer : Model W) (o : operation) (r : request)
    (l : list (operation * request)) (w : W) :
  serve_all Customer ((o, r) :: l) w
  = ((handle Customer o r w).1
       :: (serve_all Customer l (handle Customer o r w).2).1,
     (serve_all Customer l (handle Customer o r w).2).2).
Proof.
  cbn. destruct (handle Customer o r w) as [r1 w1]. cbn.
  now destruct (serve_all Customer l w1).
Qed.

(** What a creation answered 201 has done to the table. *)
Lemma create_201 dp (req : request) (w : Pg.world) :
  status (controller.create (Pg.Customer dp) req w).1 = 201 ->
  exists c,
    controller.create (Pg.Customer dp) req w
    = (Response 201 (One c),
       Pg.World (Pg.rows w ++ [c]) (Pg.serial w + 1) (Pg.clock w) (Pg.outage w))
    /\ id c = Pg.serial w + 1.
Proof.
  unfold controller.create.
  destruct (negb _ || negb _); [cbn; lia |].
  destruct (m_create _ _ _) as [[c | e] w1] eqn:E; [| cbn; lia].
  intros _. cbn in E. apply create_picked_Ok in E.
  destruct E as (_ & _ & _ & _ & _ & Hid & _ & _ & _ & _ & ->).
  exists c. auto.
Qed.

(** In the model of the table a create appends its row. *)
Lemma creates_append dp (reqs : list request) (req : request) (w : Pg.world) :
  Pg.outage w = None ->
  Forall (fun r => status r = 201)
    (serve_all (Pg.Customer dp) (List.map (fun r => (Create, r)) reqs) w).1 ->
  exists cs,
    (serve_all (Pg.Customer dp) (List.map (fun r => (Create, r)) reqs) w).1
    = List.map (fun c => Response 201 (One c)) cs
    /\ length cs = length reqs
    /\ controller.findAll (Pg.Customer dp) req
         (serve_all (Pg.Customer dp) (List.map (fun r => (Create, r)) reqs) w).2
       = (Response 200 (Many (Pg.rows w ++ cs)),
          (serve_all (Pg.Customer dp) (List.map (fun r => (Create, r)) reqs) w).2).
Proof.
  revert w. induction reqs as [| r reqs IH]; intros w Hup.
  - intros _. exists []. cbn. rewrite app_nil_r.
    unfold controller.findAll. cbn. unfold Pg.findAll.
    now rewrite (connected_up _ Hup).
  - cbn [List.map]. rewrite serve_all_cons. cbn [fst snd handle].
    intros H. generalize (Forall_inv H). intros H1.
    apply Forall_inv_tail in H.
    destruct (create_201 dp r w H1) as (c & Ec & _).
    rewrite Ec in *. cbn [fst snd] in *.
    match type of H with
    | context [serve_all _ _ ?w1] =>
        destruct (IH w1 Hup H) as (cs & Hrs & Hlen & Hall)
    end.
    exists (c :: cs). split; [cbn; now rewrite Hrs |].
    split; [cbn; now rewrite Hlen |].
    rewrite Hall. cbn. now rewrite <- app_assoc.
Qed.

(** X5. With the database reachable, a series of create requests that are
    all answered 201 adds exactly their records: each answer carries the
    record that was stored for it, and a list then answers 200 with the
    records that were stored before and the created ones, each once and
    nothing else. *)
Theorem list_after_creates dp (reqs : list request) (req : request)
    (w : Pg.world) :
  Pg.outage w = None ->
  Forall (fun r => status r = 201)
    (serve_all (Pg.Customer dp) (List.map (fun r => (Create, r)) reqs) w).1 ->
  exists cs l,
    (serve_all (Pg.Customer dp) (List.map (fun r => (Create, r)) reqs) w).1
    = List.map (fun c => Response 201 (One c)) cs
    /\ length cs = length reqs
    /\ controller.findAll (Pg.Customer dp) req
         (serve_all (Pg.Customer dp) (List.map (fun r => (Create, r)) reqs) w).2
       = (Response 200 (Many l),
          (serve_all (Pg.Customer dp) (List.map (fun r => (Create, r)) reqs) w).2)
    /\ l ≡ₚ (Pg.rows w ++ cs)%list.
Proof.
  intros Hup H.
  destruct (creates_append dp reqs req w Hup H) as (cs & H1 & H2 & H3).
  exists cs, (Pg.rows w ++ cs)%list. auto.
Qed.

Lemma list_after_creates_witness :
  exists cs l,
    (serve_all (Pg.Customer example.no_dates)
       (List.map (fun r => (Create, r))
          [Request "" example.jane; Request "" example.jane]) (Pg.empty 0)).1
    = List.map (fun c => Response 201 (One c)) cs
    /\ length cs = 2%nat
    /\ controller.findAll (Pg.Customer example.no_dates) (Request "" ∅)
         (serve_all (Pg.Customer example.no_dates)
            (List.map (fun r => (Create, r))
               [Request "" example.jane; Request "" example.jane])
            (Pg.empty 0)).2
       = (Response 200 (Many l),
          (serve_all (Pg.Customer example.no_dates)
             (List.map (fun r => (Create, r))
                [Request "" example.jane; Request "" example.jane])
             (Pg.empty 0)).2)
    /\ l ≡ₚ ([] ++ cs)%list.
Proof.
  apply (list_after_creates example.no_dates
           [Request "" example.jane; Request "" example.jane]
           (Request "" ∅) (Pg.empty 0)).
  - reflexivity.
  - repeat constructor.
Defined.

(** X6. In a reachable state, with the database reachable: an update of
    a stored record, by a body that carries at least one field and
    nothing but fields the database takes (a string of at most 255
    characters, none of them NUL, for a name, an integer within range or
    [null] for the age, such a string or [null] for the address), is
    answered with status
    200 and is read back by a get-by-id with the same id.  The record
    read keeps its id and its [createdAt], its [updatedAt] is the time of
    the update, a field that the body gives has replaced the stored one
    ([null] clears the age and the address), a field that the body does
    not carry is as it was, and every other record is untouched. *)
Theorem update_then_findOne dp (req : request) (w : Pg.world) (c : customer) :
  reachable dp w ->
  Pg.outage w = None ->
  c ∈ Pg.rows w ->
  matches (params_id req) c ->
  update_body (body req) = true ->
  body req <> ∅ ->
  exists c' w',
    controller.update (Pg.Customer dp) req w
    = (Response 200 (Message "Customer updated successfully"), w')
    /\ controller.findOne (Pg.Customer dp) req w' = (Response 200 (One c'), w')
    /\ id c' = id c
    /\ createdAt c' = createdAt c
    /\ updatedAt c' = Pg.clock w
    /\ (forall s, body req !! "firstname" = Some (Js.Str s) -> firstname c' = s)
    /\ (body req !! "firstname" = None -> firstname c' = firstname c)
    /\ (forall s, body req !! "lastname" = Some (Js.Str s) -> lastname c' = s)
    /\ (body req !! "lastname" = None -> lastname c' = lastname c)
    /\ (forall n, body req !! "age" = Some (Js.Num n) -> age c' = Some n)
    /\ (body req !! "age" = Some Js.Null -> age c' = None)
    /\ (body req !! "age" = None -> age c' = age c)
    /\ (forall s, body req !! "address" = Some (Js.Str s) -> address c' = Some s)
    /\ (body req !! "address" = Some Js.Null -> address c' = None)
    /\ (body req !! "address" = None -> address c' = address c)
    /\ (forall d, d ∈ Pg.rows w -> id d <> id c -> d ∈ Pg.rows w')
    /\ length (Pg.rows w') = length (Pg.rows w).
Proof.
  intros Hw Hup Hc Hm Hb Hne. unfold matches in Hm.
  generalize (reachable_distinct dp w Hw). intros Hd.
  destruct (update_body_done dp req w (id c) Hup Hb Hne Hm Hd)
    as (ch & Hch & Hid & Hcr & Hu).
  assert (Ht : Pg.taken (id c) (Pg.rows w) = true)
    by (apply taken_true; eauto).
  rewrite Ht in Hu.
  set (g := fun x : customer =>
              if id x =? id c then Pg.amend ch (Pg.clock w) x else x) in *.
  assert (Hg : forall x, id (g x) = id x).
  { intros x. unfold g. destruct (id x =? id c); cbn; [now rewrite Hid | auto]. }
  exists (Pg.amend ch (Pg.clock w) c).
  exists (Pg.World (List.map g (Pg.rows w)) (Pg.serial w) (Pg.clock w)
            (Pg.outage w)).
  split.
  { unfold controller.update. cbn [m_update Pg.Customer]. now rewrite Hu. }
  split.
  { rewrite (findOne_up dp req _ (id c)) by (cbn; auto). cbn [Pg.rows].
    assert (Hin : g c ∈ List.map g (Pg.rows w)).
    { apply list_elem_of_In, in_map. now apply list_elem_of_In. }
    rewrite <- (Hg c).
    rewrite (find_distinct _ (g c));
      [| now rewrite (distinct_map g _ Hg) | exact Hin].
    unfold g. now rewrite Z.eqb_refl. }
  rewrite (update_body_changes dp _ Hb) in Hch. injection Hch as <-.
  cbn [id createdAt updatedAt firstname lastname age address Pg.amend
       Pg.set_id Pg.set_createdAt Pg.set_firstname Pg.set_lastname
       Pg.set_age Pg.set_address default].
  repeat split; try (intros ? E; now rewrite E); try (intros E; now rewrite E).
  - intros d Hdin Hdne. cbn [Pg.rows].
    apply list_elem_of_In, in_map_iff. exists d. unfold g.
    apply Z.eqb_neq in Hdne. rewrite Hdne.
    split; [reflexivity | now apply list_elem_of_In].
  - cbn [Pg.rows]. apply length_map.
Qed.

Lemma update_then_findOne_witness :
  let req := Request "1" (<["firstname" := Js.Str "Janet"]> ∅) in
  exists c' w',
    controller.update (Pg.Customer example.no_dates) req example.jane_stored
    = (Response 200 (Message "Customer updated successfully"), w')
    /\ controller.findOne (Pg.Customer example.no_dates) req w'
       = (Response 200 (One c'), w')
    /\ id c' = 1
    /\ firstname c' = "Janet"
    /\ lastname c' = "Doe".
Proof.
  intros req.
  assert (R : reachable example.no_dates example.jane_stored).
  { exact (reach_handle example.no_dates Create (Request "" example.jane) _
             (reach_empty _ 0)). }
  destruct (update_then_findOne example.no_dates req example.jane_stored
              example.jane_row R)
    as (c' & w' & Hput & Hget & Hid & _ & _ & Hfn & _ & _ & Hln & _).
  - reflexivity.
  - now apply list_elem_of_singleton.
  - reflexivity.
  - reflexivity.
  - intros E. apply (f_equal (fun o => o !! "firstname")) in E. discriminate.
  - exists c', w'. split; [exact Hput |]. split; [exact Hget |].
    split; [exact Hid |]. split; [now apply Hfn | now apply Hln].
Defined.

Lemma distinct_NoDup (l : list customer) :
  Pg.distinct l = true -> NoDup (List.map id l).
Proof.
  induction l as [| a l IH]; cbn; [constructor |].
  intros [Ha%negb_true_iff Hl]%andb_true_iff. constructor; [| now apply IH].
  intros Hin. apply list_elem_of_In, in_map_iff in Hin as (c & Hc & Hin).
  apply (proj1 (taken_false _ _) Ha c); [now apply list_elem_of_In | exact Hc].
Qed.

(** X7. In every reachable state of the table no two stored records have
    the same id, and every stored id is within the range of the INTEGER
    column. *)
Theorem stored_ids_unique dp (w : Pg.world) :
  reachable dp w ->
  NoDup (List.map id (Pg.rows w))
  /\ forall c, c ∈ Pg.rows w -> -2147483648 <= id c <= 2147483647.
Proof.
  intros Hw. split.
  - apply distinct_NoDup. now apply (reachable_distinct dp).
  - intros c Hc. generalize (reachable_int4 dp w Hw c Hc).
    unfold Pg.int4. destruct (_ && _) eqn:E; [| discriminate].
    intros _. apply andb_true_iff in E as [E1 E2]. lia.
Qed.

Lemma stored_ids_unique_witness :
  NoDup (List.map id (Pg.rows example.jane_stored))
  /\ forall c, c ∈ Pg.rows example.jane_stored ->
               -2147483648 <= id c <= 2147483647.
Proof.
  apply (stored_ids_unique example.no_dates).
  exact (reach_handle example.no_dates Create (Request "" example.jane) _
           (reach_empty _ 0)).
Defined.

(** The sequence only moves forward. *)
Lemma serial_forward dp (o : operation) (req : request) (w : Pg.world) :
  Pg.serial w <= Pg.serial (handle (Pg.Customer dp) o req w).2.
Proof.
  destruct o; cbn [handle].
  - on_create E; cbn; [lia | |].
    + apply create_picked_Ok in E.
      destruct E as (_ & _ & _ & _ & _ & _ & _ & _ & _ & _ & ->). cbn. lia.
    + apply create_Throw in E as (_ & _ & _ & [-> | ->]); lia.
  - rewrite findAll_state. lia.
  - rewrite findOne_state. lia.
  - on_update E; cbn.
    1,2: apply update_Ok in E
           as [[_ ->] | (ch & hit & _ & _ & _ & _ & _ & ->)]; cbn; lia.
    apply update_Throw in E as ->. lia.
  - on_delete E; cbn.
    1,2: apply destroy_Ok in E as (hit & _ & _ & _ & ->); cbn; lia.
    apply destroy_Throw in E as ->. lia.
  - on_deleteAll E; cbn.
    + apply destroy_Ok in E as (hit & _ & _ & _ & ->). cbn. lia.
    + apply destroy_Throw in E as ->. lia.
Qed.

Lemma serial_forward_all dp (l : list (operation * request)) (w : Pg.world) :
  Pg.serial w <= Pg.serial (serve_all (Pg.Customer dp) l w).2.
Proof.
  revert w. induction l as [| [o r] l IH]; intros w; [cbn; lia |].
  rewrite serve_all_cons. cbn [snd].
  generalize (serial_forward dp o r w) (IH (handle (Pg.Customer dp) o r w).2).
  lia.
Qed.

(** X8. The ids that create hands out grow: a record created after
    another one, whatever requests were served in between (updates,
    deletions and creations that were refused included), has a greater
    id than the id that the earlier creation handed out. *)
Theorem generated_ids_grow dp (req1 req2 : request)
    (between : list (operation * request)) (w w1 w3 : Pg.world)
    (c1 c2 : customer) :
  controller.create (Pg.Customer dp) req1 w = (Response 201 (One c1), w1) ->
  controller.create (Pg.Customer dp) req2
    (serve_all (Pg.Customer dp) between w1).2
  = (Response 201 (One c2), w3) ->
  id c1 < id c2.
Proof.
  intros H1 H2.
  destruct (create_201 dp req1 w) as (d1 & E1 & Hd1); [now rewrite H1 |].
  destruct (create_201 dp req2 (serve_all (Pg.Customer dp) between w1).2)
    as (d2 & E2 & Hd2); [now rewrite H2 |].
  rewrite H1 in E1. rewrite H2 in E2.
  injection E1 as <- Hw1. injection E2 as <- _.
  generalize (serial_forward_all dp between w1). rewrite Hw1 at 1. cbn. lia.
Qed.

Lemma generated_ids_grow_witness :
  exists c1 c2 w1 w3,
    controller.create (Pg.Customer example.no_dates) (Request "" example.jane)
      (Pg.empty 0) = (Response 201 (One c1), w1)
    /\ controller.create (Pg.Customer example.no_dates)
         (Request "" example.jane)
         (serve_all (Pg.Customer example.no_dates)
            [(DeleteAll, Request "" ∅)] w1).2
       = (Response 201 (One c2), w3)
    /\ id c1 < id c2.
Proof.
  eexists _, _, _, _.
  split; [reflexivity |]. split; [reflexivity |].
  eapply (generated_ids_grow example.no_dates (Request "" example.jane)
            (Request "" example.jane) [(DeleteAll, Request "" ∅)]
            (Pg.empty 0)); reflexivity.
Defined.

(** The validator refuses [null] for a name. *)
Lemma validate_null_name (o : gmap string Js.value) :
  o !! "firstname" = Some Js.Null \/ o !! "lastname" = Some Js.Null ->
  exists e,
    Pg.validate (fun column => bool_decide (Js.get o column = Js.Undefined)) o
    = Throw e.
Proof.
  intros H. unfold Pg.validate, Pg.validated. cbn [flat_map fst snd].
  destruct H as [H | H]; rewrite (get_Some _ _ _ H).
  - cbn. eauto.
  - match goal with
    | |- context [((if ?b then [] else ?v) ++ _)%list] =>
        destruct (if b then [] else v)
    end; cbn; eauto.
Qed.

(** X9. An update whose body gives [null] for [firstname] or for
    [lastname] is answered 500 with the fixed message that names the id,
    whatever the id, the rest of the body and the state, and changes
    nothing: a name cannot be set to [null]. *)
Theorem update_null_name_500 dp (req : request) (w : Pg.world) :
  body req !! "firstname" = Some Js.Null
  \/ body req !! "lastname" = Some Js.Null ->
  controller.update (Pg.Customer dp) req w
  = (Response 500
       (Message ("Error updating customer with id=" +:+ params_id req)), w).
Proof.
  intros H. unfold controller.update. cbn [m_update Pg.Customer].
  unfold Pg.update.
  destruct (validate_null_name _ H) as (e & ->). reflexivity.
Qed.

Lemma update_null_name_500_witness :
  controller.update (Pg.Customer example.no_dates)
    (Request "1" (<["firstname" := Js.Null]> ∅)) example.jane_stored
  = (Response 500 (Message "Error updating customer with id=1"),
     example.jane_stored).
Proof.
  apply (update_null_name_500 example.no_dates
           (Request "1" (<["firstname" := Js.Null]> ∅)) example.jane_stored).
  left. reflexivity.
Defined.

(** ** The startup, turn by turn *)

#[local] Arguments timeline.registrations : simpl never.

Lemma registrations_snoc (c : list (Z * server.line)) (t : Z) (l : server.line) :
  timeline.registrations (c ++ [(t, l)])
  = (timeline.registrations c
     ++ match l with server.RoutesRegistered => [t] | _ => [] end)%list.
Proof. unfold timeline.registrations. rewrite omap_app. now destruct l. Qed.

Lemma earliest_in (l : list (Z * server.task)) x rest :
  server.earliest l = Some (x, rest) -> x ∈ l.
Proof.
  revert x rest. induction l as [| a l IH]; cbn; [discriminate |].
  intros x rest. destruct (server.earliest l) as [[y r] |].
  - destruct (a.1 <=? y.1); intros [= <- <-]; [left |].
    right. now apply (IH y r).
  - intros [= <- <-]. left.
Qed.

(** What the tasks of the connection chain leave alone. *)
Lemma on_error_keeps (err : Js.error) (q : server.process) :
  server.stack (server.on_error err q) = server.stack q
  /\ server.listening (server.on_error err q) = server.listening q
  /\ server.now (server.on_error err q) = server.now q
  /\ timeline.registrations (server.console (server.on_error err q))
     = timeline.registrations (server.console q).
Proof.
  unfold server.on_error.
  destruct (server.retries _ <? server.maxRetries); cbn;
    rewrite !registrations_snoc, !app_nil_r; auto.
Qed.

Lemma fire_chain_keeps (env : server.environment) (t : server.task)
    (q : server.process) :
  t <> server.RegisterRoutes ->
  server.stack (server.fire env t q) = server.stack q
  /\ server.listening (server.fire env t q) = server.listening q
  /\ server.now (server.fire env t q) = server.now q
  /\ timeline.registrations (server.console (server.fire env t q))
     = timeline.registrations (server.console q).
Proof.
  intros Ht. destruct t as [| [err |] | [err |] |]; try congruence;
    cbn [server.fire server.on_authenticated server.on_synced];
    try apply on_error_keeps; cbn;
    rewrite ?registrations_snoc, ?app_nil_r; auto.
Qed.

Lemma chain_tasks env m c x d cn due t :
  chain env m c x d cn -> (due, t) ∈ cn -> t <> server.RegisterRoutes.
Proof.
  destruct 1; intros Hin;
    try (apply list_elem_of_singleton in Hin; injection Hin as -> ->;
         discriminate);
    now apply elem_of_nil in Hin.
Qed.

(** One turn of the loop keeps the process listening and the registration
    in its window. *)
Lemma turn_window (env : server.environment) p m cn rt p' :
  shape env p m cn rt ->
  timeline.window p ->
  server.turn env p = Some p' ->
  timeline.window p'
  /\ server.listening p' = server.listening p
  /\ server.now p <= server.now p'.
Proof.
  intros [Hn Hb Hf Ha Hc Hr Ht Hd Hnow] Hwin Hturn.
  unfold server.turn in Hturn.
  destruct (server.exited p) as [code |] eqn:Hex; [discriminate |].
  destruct (server.earliest (server.timers p)) as [[[due t] rest] |] eqn:E;
    [| discriminate].
  injection Hturn as <-.
  apply earliest_in in E.
  assert (Hcase : t = server.RegisterRoutes \/ t <> server.RegisterRoutes)
    by (destruct t; auto; right; discriminate).
  destruct Hcase as [-> | Hne].
  - assert (Hrt : (1000, server.RegisterRoutes) ∈ rt /\ due = 1000).
    { assert (Hin : (due, server.RegisterRoutes) ∈ rt).
      { destruct Ht as [Ht | Ht]; rewrite Ht in E;
          apply elem_of_app in E as [E | E]; auto;
          now apply (chain_tasks env _ _ _ _ _ _ _ Hc) in E. }
      inversion Hr as [Hst Hle Hx | Hst Hx]; subst rt.
      - apply list_elem_of_singleton in Hin. injection Hin as ->.
        split; [now apply list_elem_of_singleton | reflexivity].
      - now apply elem_of_nil in Hin. }
    destruct Hrt as [Hin ->].
    inversion Hr as [Hst Hle Hx | Hst Hx]; subst rt;
      [| now apply elem_of_nil in Hin].
    destruct Hwin as [(Hs & Hreg) | (Hs & _)].
    2:{ exfalso. apply Hst. rewrite Hs. apply elem_of_app. right.
        now apply list_elem_of_singleton. }
    cbn. rewrite (Z.max_r _ _ Hle). split; [| split; [reflexivity | lia]].
    right. unfold server.register_routes. cbn.
    rewrite Hs, registrations_snoc, Hreg. cbn. repeat split. lia.
  - match goal with
    | |- context [server.fire env t ?q] =>
        destruct (fire_chain_keeps env t q Hne) as (Hs & Hl & Hn' & Hreg)
    end.
    rewrite Hl, Hn'. cbn. split; [| split; [reflexivity | lia]].
    unfold timeline.window. rewrite Hs, Hreg, Hn'. cbn.
    destruct Hwin as [Hw | (Hw1 & Hw2 & Hw3)]; [now left | right].
    repeat split; auto. lia.
Qed.

Lemma main_window (env : server.environment) :
  timeline.window (server.main env)
  /\ server.listening (server.main env) = true.
Proof. split; [left; split; reflexivity | reflexivity]. Qed.

(** Every state of the loop has the shape of a run, is listening, and has
    the registration in its window. *)
Lemma run_window (env : server.environment) (k : nat) :
  exists m cn rt,
    shape env (server.run env k (server.main env)) m cn rt
    /\ timeline.window (server.run env k (server.main env))
    /\ server.listening (server.run env k (server.main env)) = true.
Proof.
  destruct (main_shape env) as (cn0 & rt0 & Hs0 & _).
  destruct (main_window env) as [Hw0 Hl0].
  generalize dependent (server.main env). intros p.
  generalize 1%nat as m. revert p cn0 rt0.
  induction k as [| k IH]; intros p cn rt m Hs Hw Hl; cbn.
  - eauto 10.
  - destruct (server.turn env p) as [p' |] eqn:E; [| eauto 10].
    destruct (turn_shape env _ _ _ _ _ Hs E) as (m' & cn' & rt' & Hs' & _).
    destruct (turn_window env _ _ _ _ _ Hs Hw E) as (Hw' & Hl' & _).
    apply (IH p' cn' rt' m' Hs' Hw'). congruence.
Qed.

Lemma dispatch_no_routes {W} (Customer : Model W) (st : list server.layer)
    (m : server.method) (path : list string) (b : gmap string Js.value) (w : W) :
  server.CustomerRoutes ∉ st ->
  (m = server.GET -> path <> []) ->
  server.dispatch Customer st m path b w = (Response 404 NoRoute, w).
Proof.
  intros Hst Hp. induction st as [| y st IH]; cbn; [reflexivity |].
  assert (Hst' : server.CustomerRoutes ∉ st).
  { intros H. apply Hst. now right. }
  destruct y; auto.
  - destruct m; auto. destruct path; auto. now destruct Hp.
  - exfalso. apply Hst. left.
Qed.

(** X10. In every state of the loop before time 1000, whatever the
    database does, the process is listening and has not exited, and every
    request other than [GET /] is answered by Express's own 404, without
    reaching a handler or the database. *)
Theorem api_is_404_before_1000ms (env : server.environment) (k : nat) :
  server.now (server.run env k (server.main env)) < 1000 ->
  server.listening (server.run env k (server.main env)) = true
  /\ server.exited (server.run env k (server.main env)) = None
  /\ forall W (Customer : Model W) (m : server.method) (path : list string)
            (b : gmap string Js.value) (w : W),
       (m = server.GET -> path <> []) ->
       server.serve Customer (server.run env k (server.main env)) m path b w
       = Some (Response 404 NoRoute, w).
Proof.
  intros Hnow.
  destruct (run_window env k) as (m & cn & rt & Hs & Hw & Hl).
  set (p := server.run env k (server.main env)) in *.
  assert (Hex : server.exited p = None).
  { destruct Hs as [Hn Hb Hf Ha Hc Hr Ht Hd Hbeg].
    inversion Hc as [| | | | Hm Hfm Hconn Hx]; try reflexivity.
    subst m. generalize (begins_late env 10 ltac:(lia)). lia. }
  split; [exact Hl |]. split; [exact Hex |].
  intros W Customer me path b w Hp. unfold server.serve.
  rewrite Hl, Hex. cbn. f_equal.
  apply dispatch_no_routes; [| exact Hp].
  destruct Hw as [(Hst & _) | (_ & _ & Hge)]; [| lia].
  rewrite Hst. unfold timeline.base. intros H.
  repeat (apply elem_of_cons in H as [H | H]; [discriminate |]).
  now apply elem_of_nil in H.
Qed.

Lemma api_is_404_before_1000ms_witness :
  server.serve (Pg.Customer example.no_dates)
    (server.run example.third_time 1 (server.main example.third_time))
    server.GET ["api"; "customers"] ∅ (Pg.empty 0)
  = Some (Response 404 NoRoute, Pg.empty 0).
Proof.
  apply (proj2 (proj2 (api_is_404_before_1000ms example.third_time 1
                         ltac:(reflexivity)))).
  discriminate.
Defined.

(** X11. Whatever the database does, the customer routes are registered
    exactly once and at time 1000: in every state of the loop the stack is
    the one the script built and the console has no registration line, or
    the stack has the routes as its last layer, behind the error handler,
    the console has one registration line stamped 1000, and it is 1000 or
    later; when the loop has come to rest it is the second. *)
Theorem routes_registered_once_at_1000 (env : server.environment) :
  (forall k,
      let p := server.run env k (server.main env) in
      (server.stack p
       = [server.Cors; server.Json; server.HealthCheck; server.ErrorHandler]
       /\ timeline.registrations (server.console p) = [])
      \/ (server.stack p
          = [server.Cors; server.Json; server.HealthCheck; server.ErrorHandler;
             server.CustomerRoutes]
          /\ timeline.registrations (server.console p) = [1000]
          /\ 1000 <= server.now p))
  /\ server.stack (server.boot env)
     = [server.Cors; server.Json; server.HealthCheck; server.ErrorHandler;
        server.CustomerRoutes]
  /\ timeline.registrations (server.console (server.boot env)) = [1000].
Proof.
  split.
  - intros k. cbv zeta.
    destruct (run_window env k) as (m & cn & rt & _ & Hw & _). exact Hw.
  - unfold server.boot.
    destruct (run_window env 64) as (m & cn & rt & _ & Hw & _).
    generalize (boot_registers_routes env). unfold server.boot. intros Hin.
    destruct Hw as [(Hst & _) | (Hst & Hreg & _)]; [| auto].
    exfalso. rewrite Hst in Hin. unfold timeline.base in Hin.
    repeat (apply elem_of_cons in Hin as [Hin | Hin]; [discriminate |]).
    now apply elem_of_nil in Hin.
Qed.

Lemma routes_window_boot (env : server.environment) :
  server.stack (server.boot env)
  = [server.Cors; server.Json; server.HealthCheck; server.ErrorHandler;
     server.CustomerRoutes]
  /\ server.listening (server.boot env) = true.
Proof.
  unfold server.boot.
  destruct (run_window env 64) as (m & cn & rt & _ & Hw & Hl).
  split; [| exact Hl].
  generalize (boot_registers_routes env). unfold server.boot. intros Hin.
  destruct Hw as [(Hst & _) | (Hst & _ & _)]; [| exact Hst].
  exfalso. rewrite Hst in Hin. unfold timeline.base in Hin.
  repeat (apply elem_of_cons in Hin as [Hin | Hin]; [discriminate |]).
  now apply elem_of_nil in Hin.
Qed.

(** *** Paths *)

Lemma unreserved_plain (c : ascii) :
  server.unreserved c = true ->
  (N_of_ascii c <? 128)%N = true /\ Ascii.eqb c "%" = false.
Proof.
  destruct c as [[] [] [] [] [] [] [] []]; vm_compute; intros H;
    try discriminate H; split; reflexivity.
Qed.

Lemma pieces_plain (s : string) :
  server.plain s = true ->
  Js.pieces s = Some (List.map Js.Plain (list_ascii_of_string s)).
Proof.
  induction s as [| c s IH]; cbn [server.plain]; [reflexivity |].
  intros [Hc Hs]%andb_true_iff.
  destruct (unreserved_plain c Hc) as [_ Hp].
  cbn [Js.pieces list_ascii_of_string List.map]. rewrite Hp, (IH Hs).
  reflexivity.
Qed.

Lemma octets_plain (s : string) :
  server.plain s = true ->
  Js.octets (List.map Js.Plain (list_ascii_of_string s))
  = Some (List.map N_of_ascii (list_ascii_of_string s)).
Proof.
  induction s as [| c s IH]; cbn [server.plain]; [reflexivity |].
  intros [Hc Hs]%andb_true_iff.
  destruct (unreserved_plain c Hc) as [Hn _].
  cbn [Js.octets list_ascii_of_string List.map]. rewrite Hn, (IH Hs).
  reflexivity.
Qed.

(** A segment that needs no escape decodes to itself. *)
Lemma decode_plain (s : string) :
  server.plain s = true -> Js.decodeURIComponent s = Some s.
Proof.
  intros H. unfold Js.decodeURIComponent.
  rewrite (pieces_plain s H). cbn [mbind option_bind].
  rewrite (octets_plain s H). cbn [mbind option_bind]. f_equal.
  rewrite List.map_map.
  rewrite (List.map_ext _ (fun c => c)) by apply ascii_N_embedding.
  rewrite List.map_id. apply string_of_list_ascii_of_string.
Qed.

Lemma trimmed_plain (path : list string) :
  Forall (fun s => server.plain s = true) path ->
  Forall (fun s => server.plain s = true) (server.trimmed path).
Proof.
  induction 1 as [| s path Hs Hp IH]; [constructor |].
  cbn [server.trimmed]. destruct path as [| t path].
  - destruct (String.eqb s ""); repeat constructor; auto.
  - constructor; auto.
Qed.

(** The segment that a route hands over is one of the path. *)
Lemma routes_plain (m : server.method) (path : list string) (o : operation)
    (i : string) :
  Forall (fun s => server.plain s = true) path ->
  server.customer_routes m path = Some (o, i) ->
  server.plain i = true.
Proof.
  intros Hp%trimmed_plain. unfold server.customer_routes, server.resource.
  destruct (server.trimmed path) as [| a [| c [| j [| ? ?]]]];
    try (destruct m; discriminate).
  - destruct (_ && _); destruct m; try discriminate; now intros [= <- <-].
  - destruct (_ && _); destruct m; try discriminate; intros [= <- <-];
      now inversion Hp as [| ? ? _ [| ? ? _ [| ? ? H _]]].
Qed.

(** Express matches whatever the case of the letters and whether or not
    the path ends in a slash. *)
Lemma routes_loose (m : server.method) (a c i : string) :
  Js.lower a = "api" ->
  Js.lower c = "customers" ->
  server.customer_routes m [a; c] = server.customer_routes m ["api"; "customers"]
  /\ server.customer_routes m [a; c; ""]
     = server.customer_routes m ["api"; "customers"]
  /\ (i <> "" ->
      server.customer_routes m [a; c; i]
      = server.customer_routes m ["api"; "customers"; i]
      /\ server.customer_routes m [a; c; i; ""]
         = server.customer_routes m ["api"; "customers"; i]).
Proof.
  intros Ha Hc.
  assert (Hc0 : String.eqb c "" = false)
    by (destruct c; [discriminate Hc | reflexivity]).
  assert (Hlit : server.literal "api" a && server.literal "customers" c = true).
  { unfold server.literal. rewrite Ha, Hc. reflexivity. }
  unfold server.customer_routes, server.resource.
  cbn [server.trimmed]. rewrite Hc0. change (String.eqb "" "") with true.
  cbv iota. rewrite Hlit.
  change (server.literal "api" "api" && server.literal "customers" "customers")
    with true.
  cbv iota.
  split; [reflexivity |]. split; [reflexivity |].
  intros Hi. apply String.eqb_neq in Hi.
  split; repeat (rewrite ?Hi; cbv iota; cbn [negb andb]);
    rewrite ?Hlit; cbv iota; rewrite ?Hi; reflexivity.
Qed.

(** X12. Whatever the database does, when the loop has come to rest and
    the process has not exited, a GET, POST, PUT or DELETE request whose
    body parses and whose path needs no escape is served as follows:
    [GET /] by the health check; a request that the route table maps to
    an operation by the handler of that operation, with the segment of
    the path that stands for the id and the parsed body; every other
    request by Express's own 404.  The route table matches
    [/api/customers] and [/api/customers/:id] whatever the case of the
    letters of [api] and [customers], and whether or not the path ends
    in a slash. *)
Theorem requests_reach_the_controller (env : server.environment) {W}
    (Customer : Model W) (m : server.method) (path : list string)
    (b : gmap string Js.value) (w : W) :
  server.exited (server.boot env) = None ->
  Forall (fun s => server.plain s = true) path ->
  server.serve Customer (server.boot env) m path b w
  = Some match m, path with
         | server.GET, [] =>
             (Response 200 (Health "Customer Management API" "ok"), w)
         | _, _ =>
             match server.customer_routes m path with
             | Some (o, i) => handle Customer o (Request i b) w
             | None => (Response 404 NoRoute, w)
             end
         end
  /\ forall a c i,
      Js.lower a = "api" ->
      Js.lower c = "customers" ->
      server.customer_routes m [a; c]
      = server.customer_routes m ["api"; "customers"]
      /\ server.customer_routes m [a; c; ""]
         = server.customer_routes m ["api"; "customers"]
      /\ (i <> "" ->
          server.customer_routes m [a; c; i]
          = server.customer_routes m ["api"; "customers"; i]
          /\ server.customer_routes m [a; c; i; ""]
             = server.customer_routes m ["api"; "customers"; i]).
Proof.
  intros Hex Hp. split; [| intros a c i; apply routes_loose].
  unfold server.serve.
  destruct (routes_window_boot env) as (Hst & Hl).
  rewrite Hl, Hex, Hst. cbn [andb bool_decide decide_rel]. cbn -[server.customer_routes].
  assert (Hr : forall o i, server.customer_routes m path = Some (o, i) ->
                           Js.decodeURIComponent i = Some i).
  { intros o i Hi. apply decode_plain. exact (routes_plain m path o i Hp Hi). }
  destruct (server.customer_routes m path) as [[o i] |] eqn:E.
  - rewrite (Hr o i eq_refl).
    destruct m; try reflexivity; destruct path; reflexivity.
  - destruct m; try reflexivity; destruct path; reflexivity.
Qed.

Lemma requests_reach_the_controller_witness :
  server.serve (Pg.Customer example.no_dates) (server.boot example.third_time)
    server.GET ["API"; "Customers"; "1"; ""] ∅ example.jane_stored
  = Some (controller.findOne (Pg.Customer example.no_dates) (Request "1" ∅)
            example.jane_stored)
  /\ server.customer_routes server.PUT ["Api"; "CUSTOMERS"; "7"; ""]
     = server.customer_routes server.PUT ["api"; "customers"; "7"].
Proof.
  destruct (requests_reach_the_controller example.third_time
              (Pg.Customer example.no_dates) server.GET
              ["API"; "Customers"; "1"; ""] ∅ example.jane_stored)
    as [H _].
  - vm_compute. reflexivity.
  - repeat constructor.
  - split; [exact H |].
    destruct (requests_reach_the_controller example.third_time
                (Pg.Customer example.no_dates) server.PUT
                ["api"] ∅ example.jane_stored)
      as [_ H'].
    + vm_compute. reflexivity.
    + repeat constructor.
    + destruct (H' "Api" "CUSTOMERS" "7" eq_refl eq_refl) as (_ & _ & H7).
      apply H7. discriminate.
Defined.

Lemma begins_tenth (env : server.environment) : 195000 <= server.begins env 10.
Proof.
  rewrite !begins_S by lia. change (server.begins env 1) with 0.
  generalize (took_nonneg env (Z.of_nat 1)) (took_nonneg env (Z.of_nat 2))
             (took_nonneg env (Z.of_nat 3)) (took_nonneg env (Z.of_nat 4))
             (took_nonneg env (Z.of_nat 5)) (took_nonneg env (Z.of_nat 6))
             (took_nonneg env (Z.of_nat 7)) (took_nonneg env (Z.of_nat 8))
             (took_nonneg env (Z.of_nat 9)).
  unfold pause. lia.
Qed.

(** X13. Whatever the database does, the startup ends in one of two ways.
    Either the flag [dbConnected] is set and the process has not exited:
    then the last attempt made has succeeded and every earlier one has
    failed.  Or the process has exited, with code 1 and the flag unset:
    then it has made 10 attempts, all of which failed, and it is 195000 ms
    or later. *)
Theorem startup_outcome (env : server.environment) :
  let p := server.boot env in
  (server.dbConnected p = true
   /\ server.exited p = None
   /\ server.succeeds env (server.retries p)
   /\ forall j, 1 <= j < server.retries p -> server.fails env j)
  \/ (server.dbConnected p = false
      /\ server.exited p = Some 1
      /\ server.retries p = 10
      /\ (forall j, 1 <= j <= 10 -> server.fails env j)
      /\ 195000 <= server.now p).
Proof.
  cbv zeta. unfold server.boot.
  destruct (main_shape env) as (cn0 & rt0 & Hs0 & Hl0).
  destruct (run_shape env 64 _ _ _ _ Hs0 ltac:(lia))
    as (m & cn & rt & Hs & Hturn).
  generalize (settled_shape env _ _ _ _ Hs Hturn). intros Hend.
  destruct Hs as [Hn Hb Hf Ha Hc Hr Ht Hd Hnow].
  set (p := server.run env 64 (server.main env)) in *.
  assert (Hfz : forall j, 1 <= j < Z.of_nat m -> server.fails env j).
  { intros j Hj. replace j with (Z.of_nat (Z.to_nat j)) by lia.
    apply Hf. lia. }
  destruct Hend as [(Hconn & Hex & Hsucc) | (Hconn & Hex & -> & Hfm)].
  - left. rewrite Hn. auto.
  - right. rewrite Hn. repeat split; auto.
    + intros j Hj. destruct (decide (j = 10)) as [-> | Hne]; [exact Hfm |].
      apply Hfz. lia.
    + generalize (begins_tenth env). lia.
Qed.

Lemma run_rest (env : server.environment) (j : nat) (p : server.process) :
  server.turn env p = None -> server.run env j p = p.
Proof. intros H. destruct j; cbn; [reflexivity | now rewrite H]. Qed.

Lemma run_add (env : server.environment) (k j : nat) (p : server.process) :
  server.run env (k + j) p = server.run env j (server.run env k p).
Proof.
  revert p. induction k as [| k IH]; intros p; cbn; [reflexivity |].
  destruct (server.turn env p) as [p' |] eqn:E; [apply IH |].
  now rewrite run_rest.
Qed.

(** Once the flag is set, a turn of the loop can only be the routes
    timer: the chain is left as it is. *)
Lemma turn_connected (env : server.environment) p m cn rt p' :
  shape env p m cn rt ->
  server.dbConnected p = true ->
  server.turn env p = Some p' ->
  server.dbConnected p' = true
  /\ server.retries p' = server.retries p
  /\ server.exited p' = None.
Proof.
  intros [Hn Hb Hf Ha Hc Hr Ht Hd Hnow] Hconn Hturn.
  unfold server.turn in Hturn.
  destruct (server.exited p) as [code |] eqn:Hex; [discriminate |].
  destruct (server.earliest (server.timers p)) as [[[due t] rest] |] eqn:E;
    [| discriminate].
  injection Hturn as <-. apply earliest_in in E.
  rewrite Hconn in Hc. inversion Hc as [| | | Hok Hx Hdl Hcn |]; subst cn.
  assert (Hin : (due, t) ∈ rt).
  { destruct Ht as [Ht | Ht]; rewrite Ht in E; cbn in E;
      [exact E | now rewrite app_nil_r in E]. }
  inversion Hr as [Hst Hle Hx' | Hst Hx']; subst rt.
  - apply list_elem_of_singleton in Hin. injection Hin as -> ->.
    cbn. auto.
  - now apply elem_of_nil in Hin.
Qed.

(** X14. In every state of the loop, the flag [dbConnected] is set only if
    [authenticate()] and [sync()] of the attempt in course have both
    resolved, and from then on it stays set: no further attempt is made
    and the process does not exit. *)
Theorem connection_is_final (env : server.environment) (k j : nat) :
  server.dbConnected (server.run env k (server.main env)) = true ->
  server.succeeds env (server.retries (server.run env k (server.main env)))
  /\ server.dbConnected (server.run env (k + j) (server.main env)) = true
  /\ server.retries (server.run env (k + j) (server.main env))
     = server.retries (server.run env k (server.main env))
  /\ server.exited (server.run env (k + j) (server.main env)) = None.
Proof.
  intros Hconn. rewrite run_add.
  destruct (run_window env k) as (m & cn & rt & Hs & _ & _).
  set (p := server.run env k (server.main env)) in *.
  split.
  - destruct Hs as [Hn Hb Hf Ha Hc Hr Ht Hd Hnow].
    rewrite Hconn in Hc. inversion Hc. now rewrite Hn.
  - assert (Hex : server.exited p = None).
    { destruct Hs as [Hn Hb Hf Ha Hc Hr Ht Hd Hnow].
      rewrite Hconn in Hc. now inversion Hc. }
    clearbody p. revert p m cn rt Hs Hconn Hex.
    induction j as [| j IH]; intros p m cn rt Hs Hconn Hex; cbn; [auto |].
    destruct (server.turn env p) as [p' |] eqn:E; [| auto].
    destruct (turn_shape env _ _ _ _ _ Hs E) as (m' & cn' & rt' & Hs' & _).
    destruct (turn_connected env _ _ _ _ _ Hs Hconn E) as (Hc' & Hr' & Hx').
    specialize (IH p' m' cn' rt' Hs' Hc' Hx').
    rewrite <- Hr'. exact IH.
Qed.

Lemma connection_is_final_witness :
  server.succeeds example.third_time 3
  /\ server.dbConnected
       (server.run example.third_time (7 + 5)
          (server.main example.third_time)) = true
  /\ server.retries
       (server.run example.third_time (7 + 5)
          (server.main example.third_time)) = 3
  /\ server.exited
       (server.run example.third_time (7 + 5)
          (server.main example.third_time)) = None.
Proof.
  apply (connection_is_final example.third_time 7 5). reflexivity.
Defined.

(** X15. In every state of the loop, whatever the database does: a request
    whose JSON body does not parse, on any method and path, [GET /]
    included, is answered 500 with [{message: 'Internal Server Error'}] by
    the error handler of the script, without reaching a handler or the
    database; a request whose body parses goes on through the layers that
    follow the parser. *)
Theorem malformed_body_is_500 (env : server.environment) (k : nat) {W}
    (Customer : Model W) (m : server.method) (path : list string) (w : W) :
  routing.receive Customer (server.stack (server.run env k (server.main env)))
    m path routing.Malformed w
  = Some (Response 500 (Message "Internal Server Error"), w)
  /\ forall b,
      routing.receive Customer
        (server.stack (server.run env k (server.main env))) m path
        (routing.Parsed b) w
      = Some (server.dispatch Customer
                (server.stack (server.run env k (server.main env))) m path b w).
Proof.
  destruct (run_window env k) as (n & cn & rt & _ & Hw & _).
  destruct Hw as [(-> & _) | (-> & _ & _)]; split; reflexivity.
Qed.

(** ** The configuration of the connection *)

(** X16. The configuration reads five variables of the environment and
    nothing else.  A variable that is set to the empty string counts as
    unset; an unset one gives its default ([localhost], [postgres],
    [postgres], [customersdb], the number 5432); a non-empty one is taken
    as it is, the port as text.  The dialect and the limits of the pool
    do not depend on the environment. *)
Theorem config_fallbacks (env : gmap string string) :
  (forall x, db_config.exports (<[x := ""]> env)
             = db_config.exports (delete x env))
  /\ (forall env' : gmap string string,
        (forall x, x ∈ db_config.variables -> env !! x = env' !! x) ->
        db_config.exports env = db_config.exports env')
  /\ (forall s, s <> "" ->
        db_config.HOST (db_config.exports (<["DB_HOST" := s]> env)) = s
        /\ db_config.USER (db_config.exports (<["DB_USER" := s]> env)) = s
        /\ db_config.PASSWORD (db_config.exports (<["DB_PASSWORD" := s]> env)) = s
        /\ db_config.DB (db_config.exports (<["DB_NAME" := s]> env)) = s
        /\ db_config.PORT (db_config.exports (<["DB_PORT" := s]> env)) = Js.Str s)
  /\ db_config.HOST (db_config.exports (delete "DB_HOST" env)) = "localhost"
  /\ db_config.USER (db_config.exports (delete "DB_USER" env)) = "postgres"
  /\ db_config.PASSWORD (db_config.exports (delete "DB_PASSWORD" env)) = "postgres"
  /\ db_config.DB (db_config.exports (delete "DB_NAME" env)) = "customersdb"
  /\ db_config.PORT (db_config.exports (delete "DB_PORT" env)) = Js.Num 5432
  /\ db_config.dialect (db_config.exports env) = "postgres"
  /\ db_config.pool_ (db_config.exports env) = db_config.Pool 5 0 30000 10000.
Proof.
  split; [| split; [| split]].
  - intros x. unfold db_config.exports.
    assert (H : forall y, default "" (<[x := ""]> env !! y)
                          = default "" (delete x env !! y)).
    { intros y. destruct (decide (x = y)) as [-> | Hne].
      - now rewrite lookup_insert_eq, lookup_delete_eq.
      - now rewrite lookup_insert_ne, lookup_delete_ne by exact Hne. }
    unfold db_config.or_default. rewrite !H.
    f_equal. destruct (decide (x = "DB_PORT")) as [-> | Hne].
    + now rewrite lookup_insert_eq, lookup_delete_eq.
    + now rewrite lookup_insert_ne, lookup_delete_ne by exact Hne.
  - intros env' H. unfold db_config.exports.
    rewrite !H by (unfold db_config.variables; set_solver). reflexivity.
  - intros s Hs. unfold db_config.exports, db_config.or_default. cbn.
    rewrite !lookup_insert_eq. cbn. unfold Js.or_else.
    destruct (String.eqb_spec s ""); [contradiction | auto].
  - unfold db_config.exports, db_config.or_default. cbn.
    rewrite !lookup_delete_eq. cbn. auto 10.
Qed.

Lemma config_fallbacks_witness :
  db_config.exports (<["DB_PASSWORD" := ""]> ∅)
  = db_config.exports (delete "DB_PASSWORD" ∅)
  /\ db_config.exports ∅ = db_config.exports (<["NODE_ENV" := "production"]> ∅)
  /\ db_config.HOST (db_config.exports (<["DB_HOST" := "db"]> ∅)) = "db"
  /\ db_config.PORT (db_config.exports (<["DB_PORT" := "5433"]> ∅))
     = Js.Str "5433".
Proof.
  destruct (config_fallbacks ∅) as (H1 & H2 & H3 & _).
  split; [exact (H1 "DB_PASSWORD") |].
  split.
  - apply (H2 (<["NODE_ENV" := "production"]> ∅)).
    intros x Hx. unfold db_config.variables in Hx.
    repeat (apply elem_of_cons in Hx as [-> | Hx]; [reflexivity |]).
    now apply elem_of_nil in Hx.
  - split.
    + apply (H3 "db"). discriminate.
    + apply (H3 "5433"). discriminate.
Defined.

(** ** The page *)

Lemma serve_listening {W} (Customer : Model W) (p : server.process)
    (m : server.method) (path : list string) (b : gmap string Js.value) (w : W) :
  server.listening p = true ->
  server.serve Customer p m path b w
  = match server.exited p with
    | None => Some (server.dispatch Customer (server.stack p) m path b w)
    | Some _ => None
    end.
Proof.
  intros Hl. unfold server.serve. rewrite Hl.
  now destruct (server.exited p).
Qed.

Lemma rest_registers_routes (env : server.environment) :
  server.CustomerRoutes ∈ server.stack (server.run env 64 (server.main env)).
Proof.
  generalize (boot_registers_routes env). unfold server.boot. trivial.
Qed.

(** The page's request on the stack that has the routes. *)
Lemma dispatch_list {W} (Customer : Model W) (b : gmap string Js.value) (w : W) :
  server.dispatch Customer
    (timeline.base ++ [server.CustomerRoutes]) server.GET ["api"; "customers"]
    b w
  = controller.findAll Customer (Request "" b) w.
Proof. reflexivity. Qed.

Lemma findAll_up dp (req : request) (w : Pg.world) :
  controller.findAll (Pg.Customer dp) req w
  = match Pg.outage w with
    | None => (Response 200 (Many (Pg.rows w)), w)
    | Some e =>
        (Response 500
           (Message (Js.or_else (Js.message e) "Error retrieving customers")), w)
    end.
Proof.
  unfold controller.findAll. cbn. unfold Pg.findAll, Pg.connected.
  now destruct (Pg.outage w).
Qed.

(** X17. In every state of the loop in which the routes are registered and
    the process has not exited, and with the database reachable, the page
    shows, once loaded, one row for each stored record, in the order of
    the table, with its id, first name, last name, age and address. *)
Theorem page_shows_the_table (env : server.environment) (k : nat) dp
    (w : Pg.world) :
  server.CustomerRoutes ∈ server.stack (server.run env k (server.main env)) ->
  server.exited (server.run env k (server.main env)) = None ->
  Pg.outage w = None ->
  App.loaded (Pg.Customer dp) (server.run env k (server.main env)) w
  = App.Table (List.map App.cells (Pg.rows w)).
Proof.
  intros Hin Hex Hup.
  destruct (run_window env k) as (m & cn & rt & _ & Hw & Hl).
  unfold App.loaded, App.get_customers.
  rewrite (serve_listening _ _ _ _ _ _ Hl), Hex.
  destruct Hw as [(Hst & _) | (Hst & _ & _)].
  - exfalso. rewrite Hst in Hin. unfold timeline.base in Hin.
    repeat (apply elem_of_cons in Hin as [Hin | Hin]; [discriminate |]).
    now apply elem_of_nil in Hin.
  - rewrite Hst, dispatch_list, findAll_up, Hup. reflexivity.
Qed.

Lemma page_shows_the_table_witness :
  App.loaded (Pg.Customer example.no_dates)
    (server.run example.third_time 64 (server.main example.third_time))
    example.jane_stored
  = App.Table [(1, "Jane", "Doe", Some 30, Some "12 Main St")].
Proof.
  apply (page_shows_the_table example.third_time 64 example.no_dates
           example.jane_stored).
  - apply rest_registers_routes.
  - reflexivity.
  - reflexivity.
Defined.

(** X18. In every state of the loop, what the page shows once loaded when
    the list cannot be had.  If the process has exited, or the routes are
    not registered yet, the request fails or is answered by a page that is
    not JSON: the error is caught and the table is shown empty.  If the
    routes are registered, the process has not exited and the database is
    unreachable, the 500 answer is a JSON object, which is stored as the
    list of customers, and rendering throws a type error. *)
Theorem page_without_the_list (env : server.environment) (k : nat) dp
    (w : Pg.world) :
  let p := server.run env k (server.main env) in
  (server.exited p <> None \/ server.CustomerRoutes ∉ server.stack p ->
   App.fetchCustomers (App.get_customers (Pg.Customer dp) p w) App.initial
   = App.State (App.Array []) false 1
   /\ App.loaded (Pg.Customer dp) p w = App.Table [])
  /\ (server.exited p = None ->
      server.CustomerRoutes ∈ server.stack p ->
      Pg.outage w <> None ->
      App.fetchCustomers (App.get_customers (Pg.Customer dp) p w) App.initial
      = App.State App.NotArray false 0
      /\ App.loaded (Pg.Customer dp) p w = App.TypeError).
Proof.
  cbv zeta.
  destruct (run_window env k) as (m & cn & rt & _ & Hw & Hl).
  set (p := server.run env k (server.main env)) in *.
  unfold App.loaded, App.get_customers.
  rewrite (serve_listening _ _ _ _ _ _ Hl).
  split.
  - intros H. destruct (server.exited p) as [code |] eqn:Hex.
    { split; reflexivity. }
    destruct H as [H | Hout]; [congruence |].
    rewrite dispatch_no_routes; [split; reflexivity | exact Hout | discriminate].
  - intros Hex Hin Hdown. rewrite Hex.
    destruct Hw as [(Hst & _) | (Hst & _ & _)].
    + exfalso. rewrite Hst in Hin. unfold timeline.base in Hin.
      repeat (apply elem_of_cons in Hin as [Hin | Hin]; [discriminate |]).
      now apply elem_of_nil in Hin.
    + rewrite Hst, dispatch_list, findAll_up.
      destruct (Pg.outage w) as [e |]; [| congruence].
      split; reflexivity.
Qed.

Lemma page_without_the_list_witness :
  App.loaded (Pg.Customer example.no_dates)
    (server.run example.third_time 1 (server.main example.third_time))
    example.jane_stored = App.Table []
  /\ App.loaded (Pg.Customer example.no_dates)
       (server.run example.always_refused 64
          (server.main example.always_refused))
       example.unreachable = App.Table []
  /\ App.loaded (Pg.Customer example.no_dates)
       (server.run example.third_time 64 (server.main example.third_time))
       example.unreachable = App.TypeError.
Proof.
  split; [| split].
  - apply (proj1 (page_without_the_list example.third_time 1 example.no_dates
                    example.jane_stored)).
    right. vm_compute. intros H.
    repeat (apply elem_of_cons in H as [H | H]; [discriminate |]).
    now apply elem_of_nil in H.
  - apply (proj1 (page_without_the_list example.always_refused 64
                    example.no_dates example.unreachable)).
    left. vm_compute. discriminate.
  - apply (proj2 (page_without_the_list example.third_time 64 example.no_dates
                    example.unreachable)).
    + vm_compute. reflexivity.
    + apply rest_registers_routes.
    + vm_compute. discriminate.
Defined.
